(** * pkg/retry: the retry loop and its error classifier

    A shallow embedding of [src/pkg/retry/retry.go]: the classifier
    [isRetryable] over a tagged model of Go's [error] values, and the loop
    [RetryIfNecessary] over an explicit world (the operation's state and the
    trace of observable events). *)

From Stdlib Require Import ZArith List String Bool Lia Permutation.
From Equations Require Import Equations.
Import ListNotations.
Local Open Scope Z_scope.
Local Open Scope bool_scope.
Set Warnings "-register-all".

(** ** Go error values

    A value of the interface type [error] is either [nil] or carries a
    dynamic value.  The type switch of [isRetryable] tells the dynamic types
    below apart; each constructor is named after the Go type (or value) it
    stands for.

    - [nil_error]: the nil interface value.
    - [context_Canceled], [context_DeadlineExceeded], [io_EOF]: the three
      sentinel values the source compares with [==].
    - [opaque_error]: any other value whose dynamic type is none of the types
      of the switch and has neither a [Cause] nor an [Unwrap] method
      (for instance the result of [errors.New]).
    - [causer]: a value with a [Cause() error] method, the interface
      [errors.Cause] of github.com/pkg/errors follows.
    - [errcode_Error]: [errcode.Error], with its [Code] (an [int]) and
      [Message].
    - [net_OpError], [url_Error]: non-nil [*net.OpError] and [*url.Error],
      with the inner [Err].
    - [syscall_Errno]: a raw [syscall.Errno].
    - [errcode_Errors]: [errcode.Errors], a slice of errors.
    - [multierror_Error]: a non-nil [*multierror.Error] with its [Errors].
    - [unwrapper]: any other value with an [Unwrap() error] method.

    Typed nil pointers stored in an [error] are not represented: the source
    dereferences them ([e.Err], [e.Errors]) and panics. *)
Inductive error : Type :=
| nil_error
| context_Canceled
| context_DeadlineExceeded
| io_EOF
| opaque_error (msg : string)
| causer (Cause : error)
| errcode_Error (Code : Z) (Message : string)
| net_OpError (Op Net : string) (Err : error)
| url_Error (Op URL : string) (Err : error)
| syscall_Errno (e : Z)
| errcode_Errors (e : list error)
| multierror_Error (Errors : list error)
| unwrapper (Unwrap : error).

(** [err == context.Canceled], [err == context.DeadlineExceeded] and
    [e.Err == io.EOF]: interface comparison with a sentinel value. *)
Definition is_context_Canceled (err : error) : bool :=
  match err with context_Canceled => true | _ => false end.

Definition is_context_DeadlineExceeded (err : error) : bool :=
  match err with context_DeadlineExceeded => true | _ => false end.

Definition is_io_EOF (err : error) : bool :=
  match err with io_EOF => true | _ => false end.

(** [err != nil]. *)
Definition not_nil (err : error) : bool :=
  match err with nil_error => false | _ => true end.

(** [errors.Cause] of github.com/pkg/errors: follow [Cause()] for as long as
    the value has that method; a nil cause ends the chain with nil. *)
Fixpoint Cause (err : error) : error :=
  match err with
  | causer cause => Cause cause
  | _ => err
  end.

(** ** Observable events of a run, in the order they happen

    - [EvOperation r]: [operation()] was called and returned [r];
    - [EvInfof d a m]: the notice was logged with delay [d], attempt number
      [a] and maximum [m];
    - [EvAfter d]: the timer of [time.After(d)] fired;
    - [EvDone d]: [ctx.Done()] fired while waiting for [d]. *)
Inductive event : Type :=
| EvOperation (result : error)
| EvInfof (delay attempt MaxRetry : Z)
| EvAfter (delay : Z)
| EvDone (delay : Z).

Definition is_EvOperation (ev : event) : bool :=
  match ev with EvOperation _ => true | _ => false end.

Definition is_EvInfof (ev : event) : bool :=
  match ev with EvInfof _ _ _ => true | _ => false end.

Definition is_EvAfter (ev : event) : bool :=
  match ev with EvAfter _ => true | _ => false end.

Definition is_EvDone (ev : event) : bool :=
  match ev with EvDone _ => true | _ => false end.

(** Number of times the operation was invoked, of notices logged, of waits
    that ran to their end and of waits cut short by the context. *)
Definition invocations (tr : list event) : nat := List.length (filter is_EvOperation tr).
Definition notices (tr : list event) : nat := List.length (filter is_EvInfof tr).
Definition sleeps (tr : list event) : nat := List.length (filter is_EvAfter tr).
Definition cancellations (tr : list event) : nat := List.length (filter is_EvDone tr).

(** [RetryOptions].  [MaxRetry] is an [int]; the loop never counts past it,
    so no wrap-around of [attempt] arises and any integer will do. *)
Record RetryOptions : Type := mkRetryOptions { MaxRetry : Z }.

(** Conversion to [int64] and multiplication in [int64]: two's complement. *)
Definition int64 (z : Z) : Z := (z + 2 ^ 63) mod 2 ^ 64 - 2 ^ 63.

(** [time.Second], in nanoseconds, the unit of [time.Duration]. *)
Definition time_Second : Z := 1000000000.

Definition inspect {A : Type} (a : A) : {b : A | a = b} := exist _ a eq_refl.

(** ** Layers around an error

    The wrapping values [isRetryable] looks through, to speak of chains of
    them: a value with [Cause()], a [*net.OpError], a [*url.Error] and a
    value with [Unwrap()]. *)
Inductive wrapper : Type :=
| Wcauser
| WOpError (Op Net : string)
| WurlError (Op URL : string)
| Wunwrapper.

Definition wrap1 (w : wrapper) (err : error) : error :=
  match w with
  | Wcauser => causer err
  | WOpError Op Net => net_OpError Op Net err
  | WurlError Op URL => url_Error Op URL err
  | Wunwrapper => unwrapper err
  end.

(** [wrap ws err]: [err] inside the layers [ws], the outermost first. *)
Definition wrap (ws : list wrapper) (err : error) : error :=
  fold_right wrap1 err ws.

(** The errors found inside an error, itself included: the inner error of
    every wrapping value and the members of every aggregate.  The [io.EOF]
    held directly by a [*url.Error] is left out: the source compares it and
    does not classify it. *)
Fixpoint nested (err : error) : list error :=
  err ::
  match err with
  | causer c => nested c
  | net_OpError _ _ c => nested c
  | url_Error _ _ c => if is_io_EOF c then [] else nested c
  | unwrapper c => nested c
  | errcode_Errors l => flat_map nested l
  | multierror_Error l => flat_map nested l
  | _ => []
  end.

(** Time spent in the waits that ran to their end, in nanoseconds. *)
Fixpoint waited (tr : list event) : Z :=
  match tr with
  | [] => 0
  | EvAfter d :: tr' => d + waited tr'
  | _ :: tr' => waited tr'
  end.

(** ** Sample inputs

    One assignment of the constants (distinct error codes, Linux's
    [ECONNREFUSED] and [ECONNRESET], a 64-bit [int] whose out-of-range
    conversions yield the smallest [int]) and a few operations, to run the
    definitions on. *)
Module Sample.

Definition ErrorCodeUnauthorized : Z := 1002.
Definition ErrorCodeNameUnknown : Z := 1010.
Definition ErrorCodeManifestUnknown : Z := 1011.
Definition ErrorCodeDenied : Z := 1003.
Definition ECONNREFUSED : Z := 111.
Definition ECONNRESET : Z := 104.
Definition IntSize : Z := 64.
Definition int_out_of_range (attempt : Z) : Z := - 2 ^ 63.

(** The server closes every connection without an answer. *)
Definition always_EOF (s : nat) : error * nat :=
  (url_Error "Get" "https://registry.example/v2/" io_EOF, S s).

(** Two connection resets, then success. *)
Definition reset_twice (s : nat) : error * nat :=
  (if (s <? 2)%nat
   then net_OpError "read" "tcp" (unwrapper (syscall_Errno ECONNRESET))
   else nil_error,
   S s).

(** The registry refuses the credentials. *)
Definition unauthorized (s : nat) : error * nat :=
  (causer (causer (errcode_Error ErrorCodeUnauthorized "authentication required")), S s).

(** The first call succeeds. *)
Definition succeeds (s : nat) : error * nat := (nil_error, S s).

(** The context never fires; fires during the first wait; during the
    second. *)
Definition never_Done (attempt : Z) : bool := false.
Definition Done_in_first_wait (attempt : Z) : bool := attempt =? 0.
Definition Done_in_second_wait (attempt : Z) : bool := attempt =? 1.

End Sample.

Section Retry.

(** The constants of the imported packages the source names.  The three
    error codes are [int]s handed out by [errcode.Register] when the
    packages are initialised; [ECONNREFUSED] depends on the platform. *)
Variable ErrorCodeUnauthorized : Z.
Variable ErrorCodeNameUnknown : Z.
Variable ErrorCodeManifestUnknown : Z.
Variable ECONNREFUSED : Z.

(** *** isRetryable *)
Fixpoint isRetryable (err : error) : bool :=
  let err := Cause err in
  if is_context_Canceled err || is_context_DeadlineExceeded err then false
  else
    match err with
    | errcode_Error Code _ =>
        if (Code =? ErrorCodeUnauthorized)
           || (Code =? ErrorCodeNameUnknown)
           || (Code =? ErrorCodeManifestUnknown)
        then false
        else true
    | net_OpError _ _ Err => isRetryable Err
    | url_Error _ _ Err =>
        if is_io_EOF Err then true else isRetryable Err
    | syscall_Errno e => negb (e =? ECONNREFUSED)
    | errcode_Errors e =>
        (fix range (l : list error) : bool :=
           match l with
           | [] => true
           | ei :: l' => if negb (isRetryable ei) then false else range l'
           end) e
    | multierror_Error Errors =>
        (fix range (l : list error) : bool :=
           match l with
           | [] => true
           | ei :: l' => if negb (isRetryable ei) then false else range l'
           end) Errors
    | unwrapper Unwrap => isRetryable Unwrap
    | _ => false
    end.

(** *** The world the loop runs in

    The operation is a Go closure: calling it yields an error value and may
    change the state it closes over, [St].  The context is seen only through
    the [select] of each iteration: [ctx_Done attempt] tells whether, during
    the wait of iteration [attempt], the case [<-ctx.Done()] is the one
    taken (otherwise the timer fires). *)
Variable St : Type.
Variable operation : St -> error * St.
Variable ctx_Done : Z -> bool.

(** Width of [int] in bits (32 or 64), and what converting a float64 that
    [int] cannot hold yields there (Go leaves it to the implementation). *)
Variable IntSize : Z.
Variable int_out_of_range : Z -> Z.

Record world : Type := mkWorld { op_state : St; trace : list event }.

Definition emit (ev : event) (w : world) : world :=
  mkWorld (op_state w) (trace w ++ [ev]).

(** [operation()] *)
Definition call_operation (w : world) : error * world :=
  let (err, s) := operation (op_state w) in
  (err, emit (EvOperation err) (mkWorld s (trace w))).

(** [logrus.Infof("Warning: failed, retrying in %s ... (%d/%d)", ...)] *)
Definition logrus_Infof (delay attempt MaxRetry : Z) (w : world) : world :=
  emit (EvInfof delay attempt MaxRetry) w.

(** The [select] between [<-time.After(delay)] and [<-ctx.Done()]: [true]
    when the context wins. *)
Definition select_Done (attempt delay : Z) (w : world) : bool * world :=
  if ctx_Done attempt then (true, emit (EvDone delay) w)
  else (false, emit (EvAfter delay) w).

(** [int(math.Pow(2, float64(attempt)))]: powers of two are exact in
    float64, and the conversion is exact while the power fits [int]. *)
Definition int_Pow2 (attempt : Z) : Z :=
  if attempt <? IntSize - 1 then 2 ^ attempt else int_out_of_range attempt.

(** [time.Duration(int(math.Pow(2, float64(attempt)))) * time.Second], in
    nanoseconds. *)
Definition delay (attempt : Z) : Z :=
  int64 (int64 (int_Pow2 attempt) * time_Second).

(** The loop condition
    [err != nil && isRetryable(err) && attempt < retryOptions.MaxRetry]. *)
Definition loop_cond (retryOptions : RetryOptions) (attempt : Z) (err : error) : bool :=
  not_nil err && isRetryable err && (attempt <? MaxRetry retryOptions).

(** The [for] loop of [RetryIfNecessary], entered with the current
    [attempt], the last [err] and the world. *)
Equations? retry_loop (retryOptions : RetryOptions) (attempt : Z) (err : error) (w : world)
  : error * world by wf (Z.to_nat (MaxRetry retryOptions - attempt)) lt :=
  retry_loop retryOptions attempt err w
    with inspect (loop_cond retryOptions attempt err) := {
    | exist _ false _ => (err, w)
    | exist _ true Hcond =>
        let delay := delay attempt in
        let w := logrus_Infof delay (attempt + 1) (MaxRetry retryOptions) w in
        match select_Done attempt delay w with
        | (true, w) => (err, w)
        | (false, w) =>
            let (err, w) := call_operation w in
            retry_loop retryOptions (attempt + 1) err w
        end }.
Proof.
  apply andb_prop in Hcond as [_ Hlt]. apply Z.ltb_lt in Hlt. lia.
Qed.

(** [RetryIfNecessary(ctx, operation, retryOptions)], started with the
    operation's closure in state [s] and an empty trace.  [retryOptions]
    points to a value (the source dereferences it). *)
Definition RetryIfNecessary (s : St) (retryOptions : RetryOptions) : error * world :=
  let (err, w) := call_operation (mkWorld s []) in
  retry_loop retryOptions 0 err w.

(** The closure state after [i] invocations, and the result of invocation
    number [i] (counted from 0), when nothing else touches the state. *)
Fixpoint op_state_after (i : nat) (s : St) : St :=
  match i with
  | O => s
  | S i' => op_state_after i' (snd (operation s))
  end.

Definition op_result (i : nat) (s : St) : error :=
  fst (operation (op_state_after i s)).

(** *** A run, told by the results of the operation

    [goes_round i]: entered with the result of invocation [i], the loop
    waits out the delay and invokes the operation again.  [cut_short j]: it
    starts the wait and the context fires.  [run_trace j]: the events of a
    run whose last invocation is number [j]. *)
Definition goes_round (retryOptions : RetryOptions) (s : St) (i : nat) : bool :=
  loop_cond retryOptions (Z.of_nat i) (op_result i s) && negb (ctx_Done (Z.of_nat i)).

Definition cut_short (retryOptions : RetryOptions) (s : St) (j : nat) : bool :=
  loop_cond retryOptions (Z.of_nat j) (op_result j s) && ctx_Done (Z.of_nat j).

Definition notice_at (retryOptions : RetryOptions) (i : nat) : event :=
  EvInfof (delay (Z.of_nat i)) (Z.of_nat i + 1) (MaxRetry retryOptions).

Definition round_events (retryOptions : RetryOptions) (s : St) (i : nat) : list event :=
  [notice_at retryOptions i; EvAfter (delay (Z.of_nat i)); EvOperation (op_result (S i) s)].

Definition run_trace (retryOptions : RetryOptions) (s : St) (j : nat) : list event :=
  EvOperation (op_result 0 s)
  :: flat_map (round_events retryOptions s) (seq 0 j)
  ++ (if cut_short retryOptions s j
      then [notice_at retryOptions j; EvDone (delay (Z.of_nat j))]
      else []).

(** ** Properties of the classifier *)

Lemma isRetryable_causer (cause : error) :
  isRetryable (causer cause) = isRetryable cause.
Proof. destruct cause; reflexivity. Qed.

Lemma isRetryable_Cause (err : error) :
  isRetryable err = isRetryable (Cause err).
Proof.
  induction err; try reflexivity.
  rewrite isRetryable_causer. simpl Cause. assumption.
Qed.

Lemma isRetryable_errcode_Error (Code : Z) (Message : string) :
  isRetryable (errcode_Error Code Message) =
  negb ((Code =? ErrorCodeUnauthorized)
        || (Code =? ErrorCodeNameUnknown)
        || (Code =? ErrorCodeManifestUnknown)).
Proof.
  simpl.
  destruct ((Code =? ErrorCodeUnauthorized)
            || (Code =? ErrorCodeNameUnknown)
            || (Code =? ErrorCodeManifestUnknown)); reflexivity.
Qed.

Lemma isRetryable_errcode_Errors (e : list error) :
  isRetryable (errcode_Errors e) = forallb isRetryable e.
Proof.
  simpl. induction e as [| ei l IH]; [reflexivity |].
  simpl forallb. rewrite <- IH. destruct (isRetryable ei); reflexivity.
Qed.

Lemma isRetryable_multierror_Error (Errors : list error) :
  isRetryable (multierror_Error Errors) = forallb isRetryable Errors.
Proof.
  simpl. induction Errors as [| ei l IH]; [reflexivity |].
  simpl forallb. rewrite <- IH. destruct (isRetryable ei); reflexivity.
Qed.

Lemma is_io_EOF_spec (err : error) : is_io_EOF err = true <-> err = io_EOF.
Proof. destruct err; simpl; split; congruence. Qed.

Lemma forallb_true_Forall (l : list error) :
  forallb isRetryable l = true <-> Forall (fun ei => isRetryable ei = true) l.
Proof.
  rewrite forallb_forall, Forall_forall. reflexivity.
Qed.

Lemma forallb_false_member (l : list error) (ei : error) :
  In ei l -> isRetryable ei = false -> forallb isRetryable l = false.
Proof.
  intros Hin Hno. destruct (forallb isRetryable l) eqn:E; [| reflexivity].
  rewrite forallb_forall in E. rewrite (E _ Hin) in Hno. discriminate.
Qed.

(** What a retryable error cannot be. *)
Lemma isRetryable_not_sentinel (err : error) :
  isRetryable err = true ->
  err <> nil_error /\ err <> context_Canceled /\ err <> context_DeadlineExceeded.
Proof.
  intros H. repeat split; intros ->; discriminate H.
Qed.

(** ** Properties of the loop *)


Lemma retry_loop_eq (retryOptions : RetryOptions) (attempt : Z) (err : error) (w : world) :
  retry_loop retryOptions attempt err w =
  if loop_cond retryOptions attempt err then
    let w1 := logrus_Infof (delay attempt) (attempt + 1) (MaxRetry retryOptions) w in
    if ctx_Done attempt then (err, emit (EvDone (delay attempt)) w1)
    else
      let (err', w3) := call_operation (emit (EvAfter (delay attempt)) w1) in
      retry_loop retryOptions (attempt + 1) err' w3
  else (err, w).
Proof.
  simp retry_loop.
  destruct (inspect (loop_cond retryOptions attempt err)) as [c Hc].
  destruct c; simp retry_loop; rewrite Hc; [| reflexivity].
  unfold select_Done. cbn zeta. destruct (ctx_Done attempt); reflexivity.
Qed.


Lemma invocations_app (t1 t2 : list event) :
  invocations (t1 ++ t2) = (invocations t1 + invocations t2)%nat.
Proof. unfold invocations. rewrite filter_app, length_app. reflexivity. Qed.

Lemma notices_app (t1 t2 : list event) :
  notices (t1 ++ t2) = (notices t1 + notices t2)%nat.
Proof. unfold notices. rewrite filter_app, length_app. reflexivity. Qed.

Lemma sleeps_app (t1 t2 : list event) :
  sleeps (t1 ++ t2) = (sleeps t1 + sleeps t2)%nat.
Proof. unfold sleeps. rewrite filter_app, length_app. reflexivity. Qed.

Lemma cancellations_app (t1 t2 : list event) :
  cancellations (t1 ++ t2) = (cancellations t1 + cancellations t2)%nat.
Proof. unfold cancellations. rewrite filter_app, length_app. reflexivity. Qed.

Lemma loop_cond_true (retryOptions : RetryOptions) (attempt : Z) (err : error) :
  loop_cond retryOptions attempt err = true <->
  not_nil err = true /\ isRetryable err = true /\ attempt < MaxRetry retryOptions.
Proof.
  unfold loop_cond. rewrite !andb_true_iff, Z.ltb_lt. tauto.
Qed.

Lemma call_operation_eq (w : world) :
  call_operation w =
  (fst (operation (op_state w)),
   mkWorld (snd (operation (op_state w)))
           (trace w ++ [EvOperation (fst (operation (op_state w)))])).
Proof.
  unfold call_operation, emit. destruct (operation (op_state w)); reflexivity.
Qed.

(** Induction over the iterations of the loop: it stops because its
    condition fails, or because the context fires during the wait, or it
    calls the operation again and goes round. *)
Lemma retry_loop_cases (retryOptions : RetryOptions)
      (P : Z -> error -> world -> error * world -> Prop) :
  (forall attempt err w,
      loop_cond retryOptions attempt err = false -> P attempt err w (err, w)) ->
  (forall attempt err w,
      loop_cond retryOptions attempt err = true ->
      ctx_Done attempt = true ->
      P attempt err w
        (err, emit (EvDone (delay attempt))
                   (logrus_Infof (delay attempt) (attempt + 1) (MaxRetry retryOptions) w))) ->
  (forall attempt err w err' w',
      loop_cond retryOptions attempt err = true ->
      ctx_Done attempt = false ->
      call_operation
        (emit (EvAfter (delay attempt))
              (logrus_Infof (delay attempt) (attempt + 1) (MaxRetry retryOptions) w))
      = (err', w') ->
      P (attempt + 1) err' w' (retry_loop retryOptions (attempt + 1) err' w') ->
      P attempt err w (retry_loop retryOptions (attempt + 1) err' w')) ->
  forall attempt err w, P attempt err w (retry_loop retryOptions attempt err w).
Proof.
  intros Hstop Hdone Hstep attempt err w.
  remember (Z.to_nat (MaxRetry retryOptions - attempt)) as n eqn:Hn.
  revert attempt err w Hn.
  induction n as [| n IH]; intros attempt err w Hn;
    rewrite retry_loop_eq;
    destruct (loop_cond retryOptions attempt err) eqn:Hc;
    try (apply Hstop; assumption).
  - apply loop_cond_true in Hc. lia.
  - cbn zeta. destruct (ctx_Done attempt) eqn:Hd.
    + apply Hdone; assumption.
    + destruct (call_operation _) as [err' w'] eqn:Hcall.
      apply Hstep; try assumption.
      apply IH. apply loop_cond_true in Hc. lia.
Qed.

Definition last_result (k : nat) (err : error) (s : St) : error :=
  match k with
  | O => err
  | S j => op_result j s
  end.

(** While the results stay retryable failures, attempts remain and the
    context does not fire, the loop goes round: [k] iterations later it is
    entered again with the result of the [k]th further invocation. *)
Lemma retry_loop_rounds (retryOptions : RetryOptions) (k : nat) :
  forall (attempt : Z) (err : error) (w : world),
    attempt + Z.of_nat k <= MaxRetry retryOptions ->
    (forall a, attempt <= a < attempt + Z.of_nat k -> ctx_Done a = false) ->
    (k <> O -> not_nil err = true /\ isRetryable err = true) ->
    (forall i, (S i < k)%nat ->
               not_nil (op_result i (op_state w)) = true
               /\ isRetryable (op_result i (op_state w)) = true) ->
    exists w',
      retry_loop retryOptions attempt err w =
      retry_loop retryOptions (attempt + Z.of_nat k)
                 (last_result k err (op_state w)) w'
      /\ op_state w' = op_state_after k (op_state w)
      /\ invocations (trace w') = (invocations (trace w) + k)%nat
      /\ notices (trace w') = (notices (trace w) + k)%nat
      /\ sleeps (trace w') = (sleeps (trace w) + k)%nat
      /\ cancellations (trace w') = cancellations (trace w).
Proof.
  induction k as [| k IH]; intros attempt err w Hle Hctx Herr Hres.
  - exists w. simpl. rewrite Z.add_0_r, !Nat.add_0_r. repeat split; reflexivity.
  - destruct Herr as [Hnil Hretry]; [discriminate |].
    rewrite retry_loop_eq.
    assert (Hc : loop_cond retryOptions attempt err = true)
      by (apply loop_cond_true; repeat split; try assumption; lia).
    rewrite Hc. cbn zeta. rewrite (Hctx attempt) by lia.
    rewrite call_operation_eq. cbn [op_state trace emit logrus_Infof].
    set (w1 := mkWorld _ _).
    destruct (IH (attempt + 1) (fst (operation (op_state w))) w1) as [w' H'].
    + lia.
    + intros a Ha. apply Hctx. lia.
    + intros Hk. apply (Hres O). lia.
    + intros i Hi. apply (Hres (S i)). lia.
    + destruct H' as (Heq & Hst & Hinv & Hnot & Hsl & Hcan).
      exists w'. subst w1. cbn [op_state trace] in *.
      rewrite Heq. repeat split.
      * f_equal; [lia |]. destruct k; reflexivity.
      * rewrite Hst. reflexivity.
      * rewrite Hinv, !invocations_app. cbn. lia.
      * rewrite Hnot, !notices_app. cbn. lia.
      * rewrite Hsl, !sleeps_app. cbn. lia.
      * rewrite Hcan, !cancellations_app. cbn. lia.
Qed.

(** The loop leaves alone whatever it is not entered for. *)
Lemma retry_loop_stop (retryOptions : RetryOptions) (attempt : Z) (err : error) (w : world) :
  loop_cond retryOptions attempt err = false ->
  retry_loop retryOptions attempt err w = (err, w).
Proof. intros Hc. rewrite retry_loop_eq, Hc. reflexivity. Qed.

(** How the trace of a run ends: with the result that is returned, or, when
    the context fired, with that result, the notice and the interrupted
    wait. *)
Definition ends_with_result (tr : list event) (err : error) : Prop :=
  cancellations tr = O /\ exists t0, tr = t0 ++ [EvOperation err].

Definition ends_cancelled (tr : list event) (err : error) : Prop :=
  exists t0 d a m,
    tr = t0 ++ [EvOperation err; EvInfof d a m; EvDone d]
    /\ cancellations t0 = O
    /\ isRetryable err = true.

Lemma retry_loop_trace_end (retryOptions : RetryOptions) :
  forall (attempt : Z) (err : error) (w : world),
    ends_with_result (trace w) err ->
    let r := retry_loop retryOptions attempt err w in
    ends_with_result (trace (snd r)) (fst r)
    \/ ends_cancelled (trace (snd r)) (fst r).
Proof.
  intros attempt err w.
  apply (retry_loop_cases retryOptions
           (fun attempt err w r =>
              ends_with_result (trace w) err ->
              ends_with_result (trace (snd r)) (fst r)
              \/ ends_cancelled (trace (snd r)) (fst r))).
  - intros a e w0 _ H. left. exact H.
  - intros a e w0 Hc _ [Hcan [t0 Ht0]]. right.
    exists t0, (delay a), (a + 1), (MaxRetry retryOptions).
    cbn [fst snd emit logrus_Infof trace op_state].
    rewrite Ht0, <- !app_assoc. cbn [app].
    repeat split.
    + rewrite Ht0, cancellations_app in Hcan. lia.
    + apply loop_cond_true in Hc. tauto.
  - intros a e w0 e' w' _ _ Hcall IH [Hcan [t0 Ht0]].
    apply IH. rewrite call_operation_eq in Hcall.
    injection Hcall as <- <-.
    cbn [fst snd emit logrus_Infof trace op_state].
    split.
    + rewrite !cancellations_app, Hcan. reflexivity.
    + eexists. reflexivity.
Qed.

(** Notices against invocations, over the whole loop. *)
Lemma retry_loop_counts (retryOptions : RetryOptions) :
  forall (attempt : Z) (err : error) (w : world),
    let r := retry_loop retryOptions attempt err w in
    (notices (trace (snd r)) + invocations (trace w) + cancellations (trace w)
     = notices (trace w) + invocations (trace (snd r)) + cancellations (trace (snd r)))%nat
    /\ (sleeps (trace (snd r)) + invocations (trace w)
        = sleeps (trace w) + invocations (trace (snd r)))%nat.
Proof.
  intros attempt err w.
  apply (retry_loop_cases retryOptions
           (fun attempt err w r =>
              (notices (trace (snd r)) + invocations (trace w) + cancellations (trace w)
               = notices (trace w) + invocations (trace (snd r))
                 + cancellations (trace (snd r)))%nat
              /\ (sleeps (trace (snd r)) + invocations (trace w)
                  = sleeps (trace w) + invocations (trace (snd r)))%nat)).
  - intros a e w0 _. cbn [snd]. lia.
  - intros a e w0 _ _. cbn [snd emit logrus_Infof trace op_state].
    rewrite !notices_app, !invocations_app, !cancellations_app, !sleeps_app.
    cbn. lia.
  - intros a e w0 e' w' _ _ Hcall [IH1 IH2].
    rewrite call_operation_eq in Hcall. injection Hcall as <- <-.
    cbn [snd emit logrus_Infof trace op_state] in *.
    rewrite !notices_app, !invocations_app, !cancellations_app, !sleeps_app in *.
    cbn in *. lia.
Qed.

Lemma RetryIfNecessary_eq (s : St) (retryOptions : RetryOptions) :
  RetryIfNecessary s retryOptions =
  retry_loop retryOptions 0 (op_result 0 s)
             (mkWorld (op_state_after 1 s) [EvOperation (op_result 0 s)]).
Proof.
  unfold RetryIfNecessary. rewrite call_operation_eq. reflexivity.
Qed.

Lemma RetryIfNecessary_trace_end (s : St) (retryOptions : RetryOptions) :
  ends_with_result (trace (snd (RetryIfNecessary s retryOptions)))
                   (fst (RetryIfNecessary s retryOptions))
  \/ ends_cancelled (trace (snd (RetryIfNecessary s retryOptions)))
                    (fst (RetryIfNecessary s retryOptions)).
Proof.
  rewrite RetryIfNecessary_eq. apply retry_loop_trace_end.
  split; [reflexivity | exists []; reflexivity].
Qed.

Lemma ends_cancelled_count (tr : list event) (err : error) :
  ends_cancelled tr err -> cancellations tr = 1%nat.
Proof.
  intros (t0 & d & a & m & -> & H0 & _).
  rewrite cancellations_app, H0. reflexivity.
Qed.

(** Every notice carries the delay of its attempt, the 1-based number of
    the attempt and the maximum. *)
Definition notice_ok (retryOptions : RetryOptions) (ev : event) : Prop :=
  match ev with
  | EvInfof d a m =>
      d = delay (a - 1) /\ 0 < a <= MaxRetry retryOptions /\ m = MaxRetry retryOptions
  | _ => True
  end.

Lemma retry_loop_notices (retryOptions : RetryOptions) :
  forall (attempt : Z) (err : error) (w : world),
    0 <= attempt ->
    Forall (notice_ok retryOptions) (trace w) ->
    Forall (notice_ok retryOptions) (trace (snd (retry_loop retryOptions attempt err w))).
Proof.
  intros attempt err w.
  apply (retry_loop_cases retryOptions
           (fun attempt err w r =>
              0 <= attempt ->
              Forall (notice_ok retryOptions) (trace w) ->
              Forall (notice_ok retryOptions) (trace (snd r)))).
  - intros a e w0 _ _ H. exact H.
  - intros a e w0 Hc _ Ha H. apply loop_cond_true in Hc.
    cbn [snd emit logrus_Infof trace op_state].
    rewrite !Forall_app. repeat split; try assumption;
      repeat constructor; try lia.
    f_equal. lia.
  - intros a e w0 e' w' Hc _ Hcall IH Ha H. apply loop_cond_true in Hc.
    apply IH; [lia |].
    rewrite call_operation_eq in Hcall. injection Hcall as <- <-.
    cbn [snd emit logrus_Infof trace op_state].
    rewrite !Forall_app. repeat split; try assumption;
      repeat constructor; try lia.
    f_equal. lia.
Qed.

Lemma int64_small (z : Z) : - 2 ^ 63 <= z < 2 ^ 63 -> int64 z = z.
Proof.
  intros H. unfold int64. rewrite Z.mod_small; lia.
Qed.

Lemma delay_in_range (attempt : Z) :
  0 <= attempt <= 33 -> attempt < IntSize - 1 ->
  delay attempt = 2 ^ attempt * time_Second.
Proof.
  intros Ha Hsz. unfold delay, int_Pow2.
  apply Z.ltb_lt in Hsz. rewrite Hsz.
  assert (H1 : 0 < 2 ^ attempt) by (apply Z.pow_pos_nonneg; lia).
  assert (H2 : 2 ^ attempt <= 2 ^ 33) by (apply Z.pow_le_mono_r; lia).
  change (2 ^ 33) with 8589934592 in H2.
  unfold time_Second.
  rewrite (int64_small (2 ^ attempt)) by lia.
  apply int64_small. lia.
Qed.

(** ** The claims *)

(** C5. An error whose root cause (what [errors.Cause] reaches) is a coded
    error is not retryable when the code is "unauthorized", "name unknown"
    or "manifest unknown", and retryable for every other code. *)
Theorem isRetryable_coded_root_cause (err : error) (Code : Z) (Message : string) :
  Cause err = errcode_Error Code Message ->
  ((Code = ErrorCodeUnauthorized
    \/ Code = ErrorCodeNameUnknown
    \/ Code = ErrorCodeManifestUnknown) -> isRetryable err = false)
  /\ ((Code <> ErrorCodeUnauthorized
       /\ Code <> ErrorCodeNameUnknown
       /\ Code <> ErrorCodeManifestUnknown) -> isRetryable err = true).
Proof.
  intros Hroot.
  rewrite isRetryable_Cause, Hroot, isRetryable_errcode_Error.
  split.
  - intros [-> | [-> | ->]]; rewrite Z.eqb_refl, ?orb_true_r; reflexivity.
  - intros (H1 & H2 & H3).
    apply Z.eqb_neq in H1, H2, H3. rewrite H1, H2, H3. reflexivity.
Qed.

(** C6. An aggregate error, in either representation ([errcode.Errors] or
    [*multierror.Error]), is retryable exactly when every member is; a
    member that is not retryable, at any position, makes it not retryable. *)
Theorem isRetryable_aggregate (members : list error) :
  (isRetryable (errcode_Errors members) = true
   <-> Forall (fun ei => isRetryable ei = true) members)
  /\ (isRetryable (multierror_Error members) = true
      <-> Forall (fun ei => isRetryable ei = true) members)
  /\ (forall before ei after,
         members = before ++ ei :: after ->
         isRetryable ei = false ->
         isRetryable (errcode_Errors members) = false
         /\ isRetryable (multierror_Error members) = false).
Proof.
  rewrite isRetryable_errcode_Errors, isRetryable_multierror_Error.
  repeat split; try apply forallb_true_Forall.
  all: intros; rewrite ?isRetryable_errcode_Errors, ?isRetryable_multierror_Error.
  all: try (apply forallb_true_Forall; assumption).
  all: apply (forallb_false_member members ei); try assumption.
  all: subst members; apply in_elt.
Qed.

(** C7. A [*url.Error] whose inner error is exactly [io.EOF] is retryable,
    and not because of the inner error, which on its own is not; with any
    other inner error the answer is that of the inner error. *)
Theorem isRetryable_url_Error (Op URL : string) (Err : error) :
  (Err = io_EOF -> isRetryable (url_Error Op URL Err) = true)
  /\ (Err <> io_EOF -> isRetryable (url_Error Op URL Err) = isRetryable Err)
  /\ isRetryable io_EOF = false.
Proof.
  repeat split.
  - intros ->. reflexivity.
  - intros Hne. simpl. destruct (is_io_EOF Err) eqn:E; [| reflexivity].
    apply is_io_EOF_spec in E. contradiction.
Qed.

(** C1, amended. When every invocation of the operation fails with a
    retryable error, [MaxRetry = n] is not negative and the context never
    fires during a wait, the operation is invoked exactly [n + 1] times and
    the failure of the last invocation is returned. *)
Theorem always_failing_exhausts_retries (s : St) (retryOptions : RetryOptions) :
  0 <= MaxRetry retryOptions ->
  (forall i, not_nil (op_result i s) = true /\ isRetryable (op_result i s) = true) ->
  (forall a, ctx_Done a = false) ->
  Z.of_nat (invocations (trace (snd (RetryIfNecessary s retryOptions))))
  = MaxRetry retryOptions + 1
  /\ fst (RetryIfNecessary s retryOptions)
     = op_result (Z.to_nat (MaxRetry retryOptions)) s
  /\ not_nil (fst (RetryIfNecessary s retryOptions)) = true
  /\ exists t0, trace (snd (RetryIfNecessary s retryOptions))
                = t0 ++ [EvOperation (fst (RetryIfNecessary s retryOptions))].
Proof.
  intros Hn Hfail Hctx.
  assert (Hend := RetryIfNecessary_trace_end s retryOptions).
  revert Hend. rewrite RetryIfNecessary_eq.
  set (w0 := mkWorld _ _).
  destruct (retry_loop_rounds retryOptions (Z.to_nat (MaxRetry retryOptions))
              0 (op_result 0 s) w0) as [w' (Heq & _ & Hinv & _ & _ & Hcan)].
  - lia.
  - intros a _. apply Hctx.
  - intros _. apply Hfail.
  - intros i _. apply (Hfail (S i)).
  - rewrite Heq, retry_loop_stop.
    2:{ unfold loop_cond. replace (_ <? _) with false; [apply andb_false_r |].
        symmetry. apply Z.ltb_ge. lia. }
    cbn [fst snd]. intros Hend.
    assert (Hlast : last_result (Z.to_nat (MaxRetry retryOptions)) (op_result 0 s)
                                (op_state w0)
                    = op_result (Z.to_nat (MaxRetry retryOptions)) s).
    { destruct (Z.to_nat (MaxRetry retryOptions)); reflexivity. }
    rewrite Hlast in *. repeat split.
    + rewrite Hinv. subst w0. cbn. lia.
    + apply Hfail.
    + destruct Hend as [[_ Ht] | Hc]; [exact Ht |].
      apply ends_cancelled_count in Hc. rewrite Hcan in Hc.
      subst w0. discriminate Hc.
Qed.

(** C2. When the operation fails with retryable errors on its first [k]
    invocations and succeeds on the next, [MaxRetry = n >= k] and the
    context never fires, nil is returned and the operation is invoked
    exactly [k + 1] times. *)
Theorem succeeds_after_k_failures (s : St) (retryOptions : RetryOptions) (k : nat) :
  Z.of_nat k <= MaxRetry retryOptions ->
  (forall i, (i < k)%nat ->
             not_nil (op_result i s) = true /\ isRetryable (op_result i s) = true) ->
  op_result k s = nil_error ->
  (forall a, ctx_Done a = false) ->
  fst (RetryIfNecessary s retryOptions) = nil_error
  /\ invocations (trace (snd (RetryIfNecessary s retryOptions))) = S k.
Proof.
  intros Hk Hfail Hok Hctx.
  rewrite RetryIfNecessary_eq.
  set (w0 := mkWorld _ _).
  destruct (retry_loop_rounds retryOptions k 0 (op_result 0 s) w0)
    as [w' (Heq & _ & Hinv & _)].
  - lia.
  - intros a _. apply Hctx.
  - intros Hk0. apply Hfail. lia.
  - intros i Hi. apply (Hfail (S i)). lia.
  - assert (Hlast : last_result k (op_result 0 s) (op_state w0) = nil_error).
    { destruct k; exact Hok. }
    rewrite Heq, Hlast, retry_loop_stop by reflexivity.
    cbn [fst snd]. split; [reflexivity |].
    rewrite Hinv. subst w0. cbn. lia.
Qed.

(** C3. When the first invocation fails with an error that is not
    retryable, the operation is invoked exactly once, that very error is
    returned, and nothing else happens: no notice and no wait. *)
Theorem non_retryable_failure_returns_at_once (s : St) (retryOptions : RetryOptions) :
  not_nil (op_result 0 s) = true ->
  isRetryable (op_result 0 s) = false ->
  fst (RetryIfNecessary s retryOptions) = op_result 0 s
  /\ trace (snd (RetryIfNecessary s retryOptions)) = [EvOperation (op_result 0 s)]
  /\ invocations (trace (snd (RetryIfNecessary s retryOptions))) = 1%nat
  /\ sleeps (trace (snd (RetryIfNecessary s retryOptions))) = 0%nat
  /\ cancellations (trace (snd (RetryIfNecessary s retryOptions))) = 0%nat.
Proof.
  intros _ Hno.
  rewrite RetryIfNecessary_eq, retry_loop_stop.
  - repeat split.
  - unfold loop_cond. rewrite Hno, andb_false_r. reflexivity.
Qed.

(** The context fires during the wait before the second attempt: the first
    result is a retryable failure, a retry is allowed and the context fires
    during the first wait.  The error of the first attempt is returned and
    the operation is not invoked a second time. *)
Lemma cancelled_before_second_attempt (s : St) (retryOptions : RetryOptions) :
  not_nil (op_result 0 s) = true ->
  isRetryable (op_result 0 s) = true ->
  0 < MaxRetry retryOptions ->
  ctx_Done 0 = true ->
  fst (RetryIfNecessary s retryOptions) = op_result 0 s
  /\ trace (snd (RetryIfNecessary s retryOptions))
     = [EvOperation (op_result 0 s);
        EvInfof (delay 0) 1 (MaxRetry retryOptions);
        EvDone (delay 0)]
  /\ invocations (trace (snd (RetryIfNecessary s retryOptions))) = 1%nat.
Proof.
  intros Hnil Hretry Hmax Hdone.
  rewrite RetryIfNecessary_eq, retry_loop_eq.
  assert (Hc : loop_cond retryOptions 0 (op_result 0 s) = true)
    by (apply loop_cond_true; auto).
  rewrite Hc, Hdone. repeat split.
Qed.

(** C8, amended. For every attempt index [i] from 0 to 33 whose power of
    two fits [int] ([i < IntSize - 1]: up to 30 with a 32-bit [int]), the
    delay computed before that retry is [2 ^ i] seconds; and every notice of
    a run whose attempt number [a = i + 1] is in that range carries that
    delay. *)
Theorem delay_is_power_of_two (s : St) (retryOptions : RetryOptions) :
  (forall i, 0 <= i <= 33 -> i < IntSize - 1 -> delay i = 2 ^ i * time_Second)
  /\ (forall d a m,
         In (EvInfof d a m) (trace (snd (RetryIfNecessary s retryOptions))) ->
         a - 1 <= 33 -> a - 1 < IntSize - 1 ->
         0 <= a - 1 /\ d = 2 ^ (a - 1) * time_Second).
Proof.
  split.
  - intros i Hi Hsz. apply delay_in_range; assumption.
  - intros d a m Hin Ha Hsz.
    assert (H : Forall (notice_ok retryOptions)
                       (trace (snd (RetryIfNecessary s retryOptions)))).
    { rewrite RetryIfNecessary_eq. apply retry_loop_notices; [lia |].
      repeat constructor. }
    rewrite Forall_forall in H. specialize (H _ Hin).
    destruct H as (Hd & Hrange & _). split; [lia |].
    rewrite Hd. apply delay_in_range; lia.
Qed.

(** C9, amended. The notice is logged before each wait.  In every run the
    number of notices is the number of invocations of the operation after
    the first one plus the number of waits the context cut short, which is
    at most one: as many notices as retries when the context does not fire
    during a wait, one more when it does. *)
Theorem notices_count (s : St) (retryOptions : RetryOptions) :
  (1 <= invocations (trace (snd (RetryIfNecessary s retryOptions))))%nat
  /\ (cancellations (trace (snd (RetryIfNecessary s retryOptions))) <= 1)%nat
  /\ notices (trace (snd (RetryIfNecessary s retryOptions)))
     = (invocations (trace (snd (RetryIfNecessary s retryOptions))) - 1
        + cancellations (trace (snd (RetryIfNecessary s retryOptions))))%nat
  /\ sleeps (trace (snd (RetryIfNecessary s retryOptions)))
     = (invocations (trace (snd (RetryIfNecessary s retryOptions))) - 1)%nat.
Proof.
  assert (Hend := RetryIfNecessary_trace_end s retryOptions).
  assert (Hcan : (cancellations (trace (snd (RetryIfNecessary s retryOptions))) <= 1)%nat).
  { destruct Hend as [[H0 _] | Hc].
    - rewrite H0. lia.
    - rewrite (ends_cancelled_count _ _ Hc). lia. }
  revert Hcan. rewrite RetryIfNecessary_eq.
  set (w0 := mkWorld _ _).
  destruct (retry_loop_counts retryOptions 0 (op_result 0 s) w0) as [H1 H2].
  revert H1 H2. cbn zeta.
  set (tr := trace (snd (retry_loop retryOptions 0 (op_result 0 s) w0))).
  subst w0. cbn [trace]. cbn. lia.
Qed.

(** C10. A negative [MaxRetry] behaves like [MaxRetry = 0]: the operation
    is invoked exactly once, there is no notice and no wait, and the first
    result, error or nil, is returned as it is. *)
Theorem negative_MaxRetry_like_zero (s : St) (retryOptions : RetryOptions) :
  MaxRetry retryOptions < 0 ->
  RetryIfNecessary s retryOptions = RetryIfNecessary s (mkRetryOptions 0)
  /\ fst (RetryIfNecessary s retryOptions) = op_result 0 s
  /\ trace (snd (RetryIfNecessary s retryOptions)) = [EvOperation (op_result 0 s)].
Proof.
  intros Hneg.
  assert (H : forall o, MaxRetry o <= 0 ->
                        RetryIfNecessary s o
                        = (op_result 0 s,
                           mkWorld (op_state_after 1 s) [EvOperation (op_result 0 s)])).
  { intros o Ho. rewrite RetryIfNecessary_eq. apply retry_loop_stop.
    unfold loop_cond. replace (0 <? MaxRetry o) with false; [apply andb_false_r |].
    symmetry. apply Z.ltb_ge. exact Ho. }
  rewrite (H retryOptions) by lia.
  rewrite (H (mkRetryOptions 0)) by (simpl; lia).
  repeat split.
Qed.

(** ** Further properties of the classifier *)

(** Induction over error values that reaches the members of aggregates. *)
Lemma error_nested_ind (P : error -> Prop) :
  P nil_error -> P context_Canceled -> P context_DeadlineExceeded -> P io_EOF ->
  (forall msg, P (opaque_error msg)) ->
  (forall c, P c -> P (causer c)) ->
  (forall Code Message, P (errcode_Error Code Message)) ->
  (forall Op Net c, P c -> P (net_OpError Op Net c)) ->
  (forall Op URL c, P c -> P (url_Error Op URL c)) ->
  (forall e, P (syscall_Errno e)) ->
  (forall l, Forall P l -> P (errcode_Errors l)) ->
  (forall l, Forall P l -> P (multierror_Error l)) ->
  (forall c, P c -> P (unwrapper c)) ->
  forall err, P err.
Proof.
  intros Hnil Hcan Hdl Heof Hop Hcauser Hcode Hnet Hurl Herrno Herrs Hmulti Hunw.
  fix IH 1. intros err.
  destruct err as [| | | | msg | c | Code Message | Op Net c | Op URL c | e | l | l | c].
  - exact Hnil.
  - exact Hcan.
  - exact Hdl.
  - exact Heof.
  - apply Hop.
  - apply Hcauser, IH.
  - apply Hcode.
  - apply Hnet, IH.
  - apply Hurl, IH.
  - apply Herrno.
  - apply Herrs. induction l as [| x l IHl]; constructor; [apply IH | exact IHl].
  - apply Hmulti. induction l as [| x l IHl]; constructor; [apply IH | exact IHl].
  - apply Hunw, IH.
Qed.

Lemma wrap_not_io_EOF (ws : list wrapper) (leaf : error) :
  leaf <> io_EOF -> is_io_EOF (wrap ws leaf) = false.
Proof.
  intros Hleaf. destruct ws as [| w ws].
  - simpl. destruct (is_io_EOF leaf) eqn:E; [| reflexivity].
    apply is_io_EOF_spec in E. contradiction.
  - destruct w; reflexivity.
Qed.

Lemma isRetryable_wrap1 (w : wrapper) (err : error) :
  is_io_EOF err = false -> isRetryable (wrap1 w err) = isRetryable err.
Proof.
  intros Hne. destruct w; simpl wrap1.
  - apply isRetryable_causer.
  - reflexivity.
  - simpl. rewrite Hne. reflexivity.
  - reflexivity.
Qed.

Lemma isRetryable_wrap (ws : list wrapper) (leaf : error) :
  leaf <> io_EOF -> isRetryable (wrap ws leaf) = isRetryable leaf.
Proof.
  intros Hleaf. induction ws as [| w ws IH]; [reflexivity |].
  change (wrap (w :: ws) leaf) with (wrap1 w (wrap ws leaf)).
  rewrite isRetryable_wrap1; [exact IH | apply wrap_not_io_EOF; exact Hleaf].
Qed.

Lemma wrap_app (ws1 ws2 : list wrapper) (leaf : error) :
  wrap (ws1 ++ ws2) leaf = wrap ws1 (wrap ws2 leaf).
Proof. unfold wrap. apply fold_right_app. Qed.

Lemma forallb_isRetryable_Permutation (l l' : list error) :
  Permutation l l' -> forallb isRetryable l = forallb isRetryable l'.
Proof.
  induction 1 as [| x l l' _ IH | x y l | l l' l'' _ IH1 _ IH2]; simpl.
  - reflexivity.
  - rewrite IH. reflexivity.
  - destruct (isRetryable x), (isRetryable y); reflexivity.
  - rewrite IH1. exact IH2.
Qed.

Lemma forallb_isRetryable_concat (ls : list (list error)) :
  forallb isRetryable (List.concat ls) = forallb (forallb isRetryable) ls.
Proof.
  induction ls as [| l ls IH]; [reflexivity |].
  simpl. rewrite forallb_app, IH. reflexivity.
Qed.

Lemma isRetryable_nested (err : error) :
  isRetryable err = true -> Forall (fun e => isRetryable e = true) (nested err).
Proof.
  induction err using error_nested_ind; intros Hr;
    try (simpl nested; constructor; [exact Hr | constructor]).
  - simpl nested. constructor; [exact Hr |].
    apply IHerr. rewrite <- isRetryable_causer. exact Hr.
  - simpl nested. constructor; [exact Hr |]. apply IHerr. exact Hr.
  - simpl nested. constructor; [exact Hr |].
    destruct (is_io_EOF err) eqn:E; [constructor |].
    apply IHerr. simpl in Hr. rewrite E in Hr. exact Hr.
  - simpl nested. constructor; [exact Hr |].
    rewrite isRetryable_errcode_Errors in Hr.
    induction l as [| x l IHl]; [constructor |].
    simpl in Hr. apply andb_prop in Hr as [Hx Hl].
    inversion H as [| ? ? Px Pl]; subst.
    simpl flat_map. apply Forall_app. split; [apply Px; exact Hx |].
    apply IHl; assumption.
  - simpl nested. constructor; [exact Hr |].
    rewrite isRetryable_multierror_Error in Hr.
    induction l as [| x l IHl]; [constructor |].
    simpl in Hr. apply andb_prop in Hr as [Hx Hl].
    inversion H as [| ? ? Px Pl]; subst.
    simpl flat_map. apply Forall_app. split; [apply Px; exact Hx |].
    apply IHl; assumption.
  - simpl nested. constructor; [exact Hr |]. apply IHerr. exact Hr.
Qed.

(** X1. Wrapping is transparent: an error inside any chain of values with
    [Cause()], [*net.OpError], [*url.Error] and values with [Unwrap()] is
    classified like the innermost error, unless that one is [io.EOF]. *)
Theorem wrappers_are_transparent (ws : list wrapper) (leaf : error) :
  leaf <> io_EOF -> isRetryable (wrap ws leaf) = isRetryable leaf.
Proof. apply isRetryable_wrap. Qed.

(** X2. However deep it is wrapped, a nil error, [context.Canceled],
    [context.DeadlineExceeded] or an error of no recognised type is not
    retryable. *)
Theorem wrapped_unrecognised_not_retryable (ws : list wrapper) (leaf : error) :
  leaf = nil_error \/ leaf = context_Canceled \/ leaf = context_DeadlineExceeded
  \/ (exists msg, leaf = opaque_error msg) ->
  isRetryable (wrap ws leaf) = false.
Proof.
  intros [-> | [-> | [-> | [msg ->]]]];
    rewrite isRetryable_wrap by discriminate; reflexivity.
Qed.

(** X3. A raw [syscall.Errno], bare or inside any chain of wrappers, is
    retryable exactly when it is not [ECONNREFUSED]. *)
Theorem wrapped_Errno_retryable (ws : list wrapper) (e : Z) :
  isRetryable (wrap ws (syscall_Errno e)) = true <-> e <> ECONNREFUSED.
Proof.
  rewrite isRetryable_wrap by discriminate. simpl.
  rewrite negb_true_iff. apply Z.eqb_neq.
Qed.

(** X4. [io.EOF] is retryable only where a [*url.Error] holds it directly:
    inside a chain of wrappers it is retryable exactly when the innermost
    layer is a [*url.Error]; bare, or directly inside any other layer, it is
    not. *)
Theorem wrapped_EOF_retryable (ws : list wrapper) :
  isRetryable (wrap ws io_EOF) = true
  <-> exists ws' Op URL, ws = ws' ++ [WurlError Op URL].
Proof.
  induction ws as [| w ws0 _] using rev_ind.
  - split; [discriminate |].
    intros (ws' & Op & URL & H). destruct ws'; discriminate H.
  - rewrite wrap_app.
    rewrite isRetryable_wrap by (destruct w; discriminate).
    split.
    + intros Hr. destruct w as [| Op Net | Op URL |];
        try discriminate Hr.
      exists ws0, Op, URL. reflexivity.
    + intros (ws' & Op & URL & H).
      apply app_inj_tail in H as [_ ->]. reflexivity.
Qed.

(** X5. The order of the members of an aggregate does not matter, nor does
    its representation. *)
Theorem aggregate_order_irrelevant (l l' : list error) :
  Permutation l l' ->
  isRetryable (errcode_Errors l) = isRetryable (errcode_Errors l')
  /\ isRetryable (multierror_Error l) = isRetryable (multierror_Error l')
  /\ isRetryable (errcode_Errors l) = isRetryable (multierror_Error l').
Proof.
  intros Hp.
  rewrite !isRetryable_errcode_Errors, !isRetryable_multierror_Error.
  rewrite (forallb_isRetryable_Permutation l l' Hp). repeat split.
Qed.

(** X6. Aggregates compose: an empty aggregate is retryable, the
    concatenation of two is retryable exactly when both are, and an
    aggregate of aggregates is classified like the aggregate of all their
    members. *)
Theorem aggregate_composition (l1 l2 : list error) (ls : list (list error)) :
  isRetryable (errcode_Errors []) = true
  /\ isRetryable (multierror_Error []) = true
  /\ isRetryable (errcode_Errors (l1 ++ l2))
     = isRetryable (errcode_Errors l1) && isRetryable (errcode_Errors l2)
  /\ isRetryable (multierror_Error (l1 ++ l2))
     = isRetryable (multierror_Error l1) && isRetryable (multierror_Error l2)
  /\ isRetryable (errcode_Errors (map multierror_Error ls))
     = isRetryable (errcode_Errors (List.concat ls))
  /\ isRetryable (multierror_Error (map errcode_Errors ls))
     = isRetryable (multierror_Error (List.concat ls)).
Proof.
  rewrite !isRetryable_errcode_Errors, !isRetryable_multierror_Error.
  rewrite !forallb_app, !forallb_isRetryable_concat.
  repeat split.
  - induction ls as [| l ls IH]; [reflexivity |].
    simpl. rewrite IH, <- isRetryable_multierror_Error. reflexivity.
  - induction ls as [| l ls IH]; [reflexivity |].
    simpl. rewrite IH, <- isRetryable_errcode_Errors. reflexivity.
Qed.

(** X7. A retryable error is retryable all the way down: every error found
    inside it is retryable too, so none of them is nil, a cancellation or an
    expired deadline of the context, [ECONNREFUSED] or an error of no
    recognised type. *)
Theorem retryable_all_the_way_down (err e : error) :
  isRetryable err = true ->
  In e (nested err) ->
  isRetryable e = true
  /\ e <> nil_error
  /\ e <> context_Canceled
  /\ e <> context_DeadlineExceeded
  /\ e <> syscall_Errno ECONNREFUSED
  /\ (forall msg, e <> opaque_error msg).
Proof.
  intros Hr Hin.
  assert (He : isRetryable e = true).
  { pose proof (isRetryable_nested err Hr) as H.
    rewrite Forall_forall in H. apply H. exact Hin. }
  split; [exact He |].
  repeat split; try (intros ->; discriminate He).
  - intros ->. simpl in He. rewrite Z.eqb_refl in He. discriminate He.
  - intros msg ->. discriminate He.
Qed.

(** ** Further properties of the loop *)

Lemma op_state_after_S (i : nat) (s : St) :
  op_state_after (S i) s = snd (operation (op_state_after i s)).
Proof.
  revert s. induction i as [| i IH]; intros s; [reflexivity |].
  change (op_state_after (S (S i)) s) with (op_state_after (S i) (snd (operation s))).
  rewrite IH. reflexivity.
Qed.

Lemma goes_round_true (retryOptions : RetryOptions) (s : St) (i : nat) :
  goes_round retryOptions s i = true ->
  loop_cond retryOptions (Z.of_nat i) (op_result i s) = true
  /\ ctx_Done (Z.of_nat i) = false.
Proof.
  unfold goes_round. rewrite andb_true_iff, negb_true_iff. tauto.
Qed.

(** [k] rounds in a row, with the events they leave. *)
Lemma retry_loop_rounds_exact (retryOptions : RetryOptions) (s : St) (k : nat) :
  forall (a : nat) (tr : list event),
    (forall i, (a <= i < a + k)%nat -> goes_round retryOptions s i = true) ->
    retry_loop retryOptions (Z.of_nat a) (op_result a s)
               (mkWorld (op_state_after (S a) s) tr)
    = retry_loop retryOptions (Z.of_nat (a + k)) (op_result (a + k) s)
                 (mkWorld (op_state_after (S (a + k)) s)
                          (tr ++ flat_map (round_events retryOptions s) (seq a k))).
Proof.
  induction k as [| k IH]; intros a tr Hround.
  - rewrite Nat.add_0_r. simpl. rewrite app_nil_r. reflexivity.
  - destruct (goes_round_true retryOptions s a) as [Hc Hd]; [apply Hround; lia |].
    rewrite retry_loop_eq, Hc. cbn zeta. rewrite Hd, call_operation_eq.
    cbn [op_state trace emit logrus_Infof].
    rewrite <- op_state_after_S.
    change (fst (operation (op_state_after (S a) s))) with (op_result (S a) s).
    replace (Z.of_nat a + 1) with (Z.of_nat (S a)) by lia.
    rewrite IH by (intros i Hi; apply Hround; lia).
    rewrite Nat.add_succ_r. cbn [Nat.add].
    f_equal. f_equal.
    cbn [seq flat_map round_events app]. unfold notice_at.
    rewrite <- !List.app_assoc. cbn [app].
    replace (Z.of_nat (S a)) with (Z.of_nat a + 1) by lia. reflexivity.
Qed.

Lemma run_stops_at (retryOptions : RetryOptions) (s : St) (j : nat) :
  (forall i, (i < j)%nat -> goes_round retryOptions s i = true) ->
  goes_round retryOptions s j = false ->
  RetryIfNecessary s retryOptions
  = (op_result j s, mkWorld (op_state_after (S j) s) (run_trace retryOptions s j)).
Proof.
  intros Hround Hstop.
  rewrite RetryIfNecessary_eq.
  change 0 with (Z.of_nat 0).
  rewrite (retry_loop_rounds_exact retryOptions s j 0)
    by (intros i Hi; apply Hround; lia).
  cbn [Nat.add]. unfold run_trace, cut_short. unfold goes_round in Hstop.
  destruct (loop_cond retryOptions (Z.of_nat j) (op_result j s)) eqn:Hc.
  - destruct (ctx_Done (Z.of_nat j)) eqn:Hd; [| discriminate Hstop].
    rewrite retry_loop_eq, Hc. cbn zeta. rewrite Hd.
    unfold logrus_Infof, emit, notice_at. cbn [andb op_state trace app].
    rewrite <- !List.app_assoc. reflexivity.
  - rewrite retry_loop_stop by exact Hc. cbn [andb].
    rewrite app_nil_r. reflexivity.
Qed.

Lemma first_false (f : nat -> bool) (n : nat) :
  f n = false ->
  exists j, (j <= n)%nat /\ (forall i, (i < j)%nat -> f i = true) /\ f j = false.
Proof.
  revert f. induction n as [| n IH]; intros f Hn.
  - exists O. repeat split; [lia | intros i Hi; lia | exact Hn].
  - destruct (f O) eqn:H0.
    + destruct (IH (fun i => f (S i)) Hn) as (j & Hle & Hlt & Hj).
      exists (S j). repeat split; [lia | | exact Hj].
      intros [| i] Hi; [exact H0 | apply Hlt; lia].
    + exists O. repeat split; [lia | intros i Hi; lia | exact H0].
Qed.

(** Every run stops at some invocation [j], after [j] rounds. *)
Lemma run_described (retryOptions : RetryOptions) (s : St) :
  exists j,
    Z.of_nat j <= Z.max 0 (MaxRetry retryOptions)
    /\ (forall i, (i < j)%nat -> goes_round retryOptions s i = true)
    /\ goes_round retryOptions s j = false
    /\ RetryIfNecessary s retryOptions
       = (op_result j s, mkWorld (op_state_after (S j) s) (run_trace retryOptions s j)).
Proof.
  destruct (first_false (goes_round retryOptions s)
                        (Z.to_nat (Z.max 0 (MaxRetry retryOptions))))
    as (j & Hle & Hround & Hstop).
  - unfold goes_round, loop_cond.
    replace (_ <? _) with false; [rewrite andb_false_r; reflexivity |].
    symmetry. apply Z.ltb_ge. lia.
  - exists j. repeat split; try assumption; [lia |].
    apply run_stops_at; assumption.
Qed.

Lemma rounds_counts (retryOptions : RetryOptions) (s : St) (k : nat) :
  forall a,
    invocations (flat_map (round_events retryOptions s) (seq a k)) = k
    /\ notices (flat_map (round_events retryOptions s) (seq a k)) = k
    /\ sleeps (flat_map (round_events retryOptions s) (seq a k)) = k
    /\ cancellations (flat_map (round_events retryOptions s) (seq a k)) = O
    /\ filter is_EvInfof (flat_map (round_events retryOptions s) (seq a k))
       = map (notice_at retryOptions) (seq a k).
Proof.
  induction k as [| k IH]; intros a; [repeat split |].
  destruct (IH (S a)) as (H1 & H2 & H3 & H4 & H5).
  cbn [seq flat_map].
  rewrite invocations_app, notices_app, sleeps_app, cancellations_app, filter_app.
  rewrite H1, H2, H3, H4, H5. repeat split.
Qed.

Definition stops (retryOptions : RetryOptions) (s : St) (j : nat) : nat :=
  if cut_short retryOptions s j then 1%nat else 0%nat.

Lemma run_trace_counts (retryOptions : RetryOptions) (s : St) (j : nat) :
  invocations (run_trace retryOptions s j) = S j
  /\ notices (run_trace retryOptions s j) = (j + stops retryOptions s j)%nat
  /\ sleeps (run_trace retryOptions s j) = j
  /\ cancellations (run_trace retryOptions s j) = stops retryOptions s j
  /\ filter is_EvInfof (run_trace retryOptions s j)
     = map (notice_at retryOptions) (seq 0 (j + stops retryOptions s j)).
Proof.
  destruct (rounds_counts retryOptions s j 0) as (H1 & H2 & H3 & H4 & H5).
  unfold run_trace, stops.
  change (EvOperation (op_result 0 s) :: ?t) with ([EvOperation (op_result 0 s)] ++ t).
  rewrite !invocations_app, !notices_app, !sleeps_app, !cancellations_app, !filter_app.
  rewrite H1, H2, H3, H4, H5.
  destruct (cut_short retryOptions s j).
  - replace (j + 1)%nat with (S j) by lia.
    rewrite seq_S, map_app. unfold notice_at.
    repeat split; cbn; lia.
  - replace (j + 0)%nat with j by lia.
    repeat split; try (cbn; lia). cbn. apply List.app_nil_r.
Qed.

Lemma run_trace_last_invocation (retryOptions : RetryOptions) (s : St) (j : nat) :
  exists t0,
    EvOperation (op_result 0 s) :: flat_map (round_events retryOptions s) (seq 0 j)
    = t0 ++ [EvOperation (op_result j s)].
Proof.
  destruct j as [| j].
  - exists []. reflexivity.
  - exists (EvOperation (op_result 0 s)
            :: flat_map (round_events retryOptions s) (seq 0 j)
            ++ [notice_at retryOptions j; EvAfter (delay (Z.of_nat j))]).
    rewrite seq_S, flat_map_app. cbn [Nat.add flat_map round_events app].
    rewrite <- !List.app_assoc. reflexivity.
Qed.

(** C4. When the context fires during a wait, the run ends there.  Let the
    wait after invocation [j] be reached (the results of invocations
    [0 .. j-1] are retryable failures and the context does not fire in the
    waits after them; the result of invocation [j] is a retryable failure
    and [j] is below [MaxRetry]) and let the context fire during it.  Then
    the result of invocation [j], the last observed error, is returned; it
    is neither nil nor one of the context's own errors; and the operation is
    not invoked again: it has been called [j + 1] times and the trace ends
    with that invocation, the notice and the interrupted wait. *)
Theorem cancelled_wait_returns_last_error
        (retryOptions : RetryOptions) (s : St) (j : nat) :
  (forall i, (i < j)%nat ->
             not_nil (op_result i s) = true
             /\ isRetryable (op_result i s) = true
             /\ ctx_Done (Z.of_nat i) = false) ->
  not_nil (op_result j s) = true ->
  isRetryable (op_result j s) = true ->
  Z.of_nat j < MaxRetry retryOptions ->
  ctx_Done (Z.of_nat j) = true ->
  fst (RetryIfNecessary s retryOptions) = op_result j s
  /\ invocations (trace (snd (RetryIfNecessary s retryOptions))) = S j
  /\ op_state (snd (RetryIfNecessary s retryOptions)) = op_state_after (S j) s
  /\ cancellations (trace (snd (RetryIfNecessary s retryOptions))) = 1%nat
  /\ (exists t0,
         trace (snd (RetryIfNecessary s retryOptions))
         = t0 ++ [EvOperation (op_result j s);
                  EvInfof (delay (Z.of_nat j)) (Z.of_nat j + 1) (MaxRetry retryOptions);
                  EvDone (delay (Z.of_nat j))])
  /\ fst (RetryIfNecessary s retryOptions) <> nil_error
  /\ fst (RetryIfNecessary s retryOptions) <> context_Canceled
  /\ fst (RetryIfNecessary s retryOptions) <> context_DeadlineExceeded.
Proof.
  intros Hbefore Hnil Hretry Hmax Hdone.
  assert (Hc : loop_cond retryOptions (Z.of_nat j) (op_result j s) = true)
    by (apply loop_cond_true; auto).
  assert (Hround : forall i, (i < j)%nat -> goes_round retryOptions s i = true).
  { intros i Hi. destruct (Hbefore i Hi) as (H1 & H2 & H3).
    unfold goes_round. rewrite H3.
    replace (loop_cond retryOptions (Z.of_nat i) (op_result i s)) with true;
      [reflexivity |].
    symmetry. apply loop_cond_true. repeat split; try assumption. lia. }
  assert (Hstop : goes_round retryOptions s j = false).
  { unfold goes_round. rewrite Hdone. apply andb_false_r. }
  assert (Hcut : cut_short retryOptions s j = true).
  { unfold cut_short. rewrite Hc, Hdone. reflexivity. }
  rewrite (run_stops_at retryOptions s j Hround Hstop).
  cbn [fst snd op_state trace].
  destruct (run_trace_counts retryOptions s j) as (-> & _ & _ & -> & _).
  unfold stops. rewrite Hcut.
  split; [reflexivity |]. split; [reflexivity |]. split; [reflexivity |].
  split; [reflexivity |]. split.
  - unfold run_trace. rewrite Hcut.
    destruct (run_trace_last_invocation retryOptions s j) as [t0 Ht0].
    exists t0.
    change (EvOperation (op_result 0 s)
            :: flat_map (round_events retryOptions s) (seq 0 j) ++ ?t)
      with ((EvOperation (op_result 0 s)
             :: flat_map (round_events retryOptions s) (seq 0 j)) ++ t).
    rewrite Ht0, <- List.app_assoc. reflexivity.
  - apply isRetryable_not_sentinel. exact Hretry.
Qed.

Lemma waited_app (t1 t2 : list event) :
  waited (t1 ++ t2) = waited t1 + waited t2.
Proof.
  induction t1 as [| ev t1 IH]; [reflexivity |].
  destruct ev; cbn [app waited]; rewrite IH; lia.
Qed.

Lemma waited_rounds (retryOptions : RetryOptions) (s : St) (k : nat) :
  forall a,
    Z.of_nat (a + k) <= 34 ->
    Z.of_nat (a + k) <= IntSize - 1 ->
    waited (flat_map (round_events retryOptions s) (seq a k))
    = (2 ^ Z.of_nat (a + k) - 2 ^ Z.of_nat a) * time_Second.
Proof.
  induction k as [| k IH]; intros a H34 Hsz.
  - rewrite Nat.add_0_r. cbn. lia.
  - cbn [seq flat_map round_events notice_at app waited].
    rewrite IH by lia. rewrite delay_in_range by lia.
    replace (S a + k)%nat with (a + S k)%nat by lia.
    replace (2 ^ Z.of_nat (S a)) with (2 * 2 ^ Z.of_nat a)
      by (rewrite Nat2Z.inj_succ, Z.pow_succ_r by lia; reflexivity).
    unfold time_Second. lia.
Qed.

Lemma run_trace_waited (retryOptions : RetryOptions) (s : St) (j : nat) :
  Z.of_nat j <= 34 ->
  Z.of_nat j <= IntSize - 1 ->
  waited (run_trace retryOptions s j) = (2 ^ Z.of_nat j - 1) * time_Second.
Proof.
  intros H34 Hsz. unfold run_trace. cbn [waited].
  rewrite waited_app, (waited_rounds retryOptions s j 0) by (cbn [Nat.add]; lia).
  cbn [Nat.add]. destruct (cut_short retryOptions s j); cbn; lia.
Qed.

(** X8. The run told by the results of the operation.  If for every
    [i < j] the result of invocation [i] is a retryable failure, [i] is below
    [MaxRetry] and the context does not fire in the wait that follows, and
    after invocation [j] the loop does not go round, then invocation [j] is
    the last: its result is returned, the closure has been called [j + 1]
    times and the events are those of [run_trace]. *)
Theorem run_ends_at_first_stop (retryOptions : RetryOptions) (s : St) (j : nat) :
  (forall i, (i < j)%nat -> goes_round retryOptions s i = true) ->
  goes_round retryOptions s j = false ->
  fst (RetryIfNecessary s retryOptions) = op_result j s
  /\ op_state (snd (RetryIfNecessary s retryOptions)) = op_state_after (S j) s
  /\ trace (snd (RetryIfNecessary s retryOptions)) = run_trace retryOptions s j
  /\ invocations (trace (snd (RetryIfNecessary s retryOptions))) = S j.
Proof.
  intros Hround Hstop.
  rewrite (run_stops_at retryOptions s j Hround Hstop).
  cbn [fst snd op_state trace]. repeat split.
  apply run_trace_counts.
Qed.

(** X9. Every run is bounded by [MaxRetry]: at most [max 0 MaxRetry + 1]
    invocations, at most [max 0 MaxRetry] notices and as many waits,
    whatever the operation and the context do. *)
Theorem run_is_bounded (retryOptions : RetryOptions) (s : St) :
  Z.of_nat (invocations (trace (snd (RetryIfNecessary s retryOptions))))
  <= Z.max 0 (MaxRetry retryOptions) + 1
  /\ Z.of_nat (notices (trace (snd (RetryIfNecessary s retryOptions))))
     <= Z.max 0 (MaxRetry retryOptions)
  /\ Z.of_nat (sleeps (trace (snd (RetryIfNecessary s retryOptions)))
               + cancellations (trace (snd (RetryIfNecessary s retryOptions))))
     <= Z.max 0 (MaxRetry retryOptions).
Proof.
  destruct (run_described retryOptions s) as (j & Hle & _ & _ & ->).
  cbn [snd trace].
  destruct (run_trace_counts retryOptions s j) as (-> & -> & -> & -> & _).
  unfold stops, cut_short.
  destruct (loop_cond retryOptions (Z.of_nat j) (op_result j s)) eqn:Hc;
    [apply loop_cond_true in Hc |];
    destruct (ctx_Done (Z.of_nat j)); cbn [andb]; lia.
Qed.

(** X10. On every path the value returned is the result of the last
    invocation of the operation, and the closure has been called exactly as
    many times as the trace shows. *)
Theorem returns_result_of_last_invocation (retryOptions : RetryOptions) (s : St) :
  (1 <= invocations (trace (snd (RetryIfNecessary s retryOptions))))%nat
  /\ fst (RetryIfNecessary s retryOptions)
     = op_result (invocations (trace (snd (RetryIfNecessary s retryOptions))) - 1) s
  /\ op_state (snd (RetryIfNecessary s retryOptions))
     = op_state_after (invocations (trace (snd (RetryIfNecessary s retryOptions)))) s.
Proof.
  destruct (run_described retryOptions s) as (j & _ & _ & _ & ->).
  cbn [fst snd trace op_state].
  destruct (run_trace_counts retryOptions s j) as (-> & _).
  cbn [Nat.sub]. rewrite Nat.sub_0_r. repeat split. lia.
Qed.

(** X11. The operation is invoked again only after a retryable failure:
    every invocation but the last returned a non-nil retryable error, at an
    attempt below [MaxRetry], and the wait after it ran to its end. *)
Theorem retries_follow_retryable_failures
        (retryOptions : RetryOptions) (s : St) (i : nat) :
  (S i < invocations (trace (snd (RetryIfNecessary s retryOptions))))%nat ->
  not_nil (op_result i s) = true
  /\ isRetryable (op_result i s) = true
  /\ Z.of_nat i < MaxRetry retryOptions
  /\ ctx_Done (Z.of_nat i) = false.
Proof.
  destruct (run_described retryOptions s) as (j & _ & Hround & _ & ->).
  cbn [snd trace].
  destruct (run_trace_counts retryOptions s j) as (-> & _).
  intros Hi.
  destruct (goes_round_true retryOptions s i) as [Hc Hd]; [apply Hround; lia |].
  apply loop_cond_true in Hc. tauto.
Qed.

(** X12. The notices of a run are numbered 1, 2, 3, ... without gaps, each
    with the delay of its attempt and with [MaxRetry]. *)
Theorem notices_are_numbered (retryOptions : RetryOptions) (s : St) :
  filter is_EvInfof (trace (snd (RetryIfNecessary s retryOptions)))
  = map (fun i => EvInfof (delay (Z.of_nat i)) (Z.of_nat i + 1) (MaxRetry retryOptions))
        (seq 0 (notices (trace (snd (RetryIfNecessary s retryOptions))))).
Proof.
  destruct (run_described retryOptions s) as (j & _ & _ & _ & ->).
  cbn [snd trace].
  destruct (run_trace_counts retryOptions s j) as (_ & -> & _ & _ & ->).
  reflexivity.
Qed.

(** X13. A retryable failure is returned only when the retries are used up
    or the context fired during a wait. *)
Theorem retryable_result_means_exhausted_or_cancelled
        (retryOptions : RetryOptions) (s : St) :
  not_nil (fst (RetryIfNecessary s retryOptions)) = true ->
  isRetryable (fst (RetryIfNecessary s retryOptions)) = true ->
  cancellations (trace (snd (RetryIfNecessary s retryOptions))) = 1%nat
  \/ Z.of_nat (invocations (trace (snd (RetryIfNecessary s retryOptions))))
     = Z.max 0 (MaxRetry retryOptions) + 1.
Proof.
  destruct (run_described retryOptions s) as (j & Hle & _ & Hstop & ->).
  cbn [fst snd trace].
  destruct (run_trace_counts retryOptions s j) as (-> & _ & _ & -> & _).
  intros Hnil Hretry.
  unfold stops, cut_short. unfold goes_round in Hstop.
  destruct (loop_cond retryOptions (Z.of_nat j) (op_result j s)) eqn:Hc.
  - left. destruct (ctx_Done (Z.of_nat j)); [reflexivity | discriminate Hstop].
  - right. unfold loop_cond in Hc. rewrite Hnil, Hretry in Hc.
    cbn [andb] in Hc. apply Z.ltb_ge in Hc. lia.
Qed.

(** X14. With [MaxRetry] at most 34, and at most the width of [int] minus
    one, the waits of a run that ran to their end add up to [2 ^ k - 1]
    seconds, [k] being their number. *)
Theorem total_wait (retryOptions : RetryOptions) (s : St) :
  MaxRetry retryOptions <= 34 ->
  MaxRetry retryOptions <= IntSize - 1 ->
  waited (trace (snd (RetryIfNecessary s retryOptions)))
  = (2 ^ Z.of_nat (sleeps (trace (snd (RetryIfNecessary s retryOptions)))) - 1)
    * time_Second.
Proof.
  intros H34 Hsz.
  destruct (run_described retryOptions s) as (j & Hle & Hround & _ & ->).
  cbn [snd trace].
  destruct (run_trace_counts retryOptions s j) as (_ & _ & -> & _).
  destruct j as [| j].
  { unfold run_trace. cbn. destruct (cut_short retryOptions s 0); reflexivity. }
  destruct (goes_round_true retryOptions s j) as [Hc _]; [apply Hround; lia |].
  apply loop_cond_true in Hc.
  apply run_trace_waited; lia.
Qed.

(** X15. When the first invocation succeeds, nil is returned at once: one
    invocation, no notice and no wait, whatever [MaxRetry] and the context
    are. *)
Theorem first_success_returns_at_once (retryOptions : RetryOptions) (s : St) :
  op_result 0 s = nil_error ->
  fst (RetryIfNecessary s retryOptions) = nil_error
  /\ trace (snd (RetryIfNecessary s retryOptions)) = [EvOperation nil_error].
Proof.
  intros Hok.
  rewrite RetryIfNecessary_eq, Hok, retry_loop_stop by reflexivity.
  split; reflexivity.
Qed.

(** X16. The events of every run come in one order: the first invocation;
    then, for each retry, the notice, the wait and the invocation; and at
    the very end, when the context fired, one more notice and the
    interrupted wait. *)
Theorem every_run_has_one_shape (retryOptions : RetryOptions) (s : St) :
  exists j,
    Z.of_nat j <= Z.max 0 (MaxRetry retryOptions)
    /\ trace (snd (RetryIfNecessary s retryOptions))
       = EvOperation (op_result 0 s)
         :: flat_map
              (fun i =>
                 [EvInfof (delay (Z.of_nat i)) (Z.of_nat i + 1) (MaxRetry retryOptions);
                  EvAfter (delay (Z.of_nat i));
                  EvOperation (op_result (S i) s)])
              (seq 0 j)
         ++ (if cut_short retryOptions s j
             then [EvInfof (delay (Z.of_nat j)) (Z.of_nat j + 1) (MaxRetry retryOptions);
                   EvDone (delay (Z.of_nat j))]
             else []).
Proof.
  destruct (run_described retryOptions s) as (j & Hle & _ & _ & ->).
  exists j. split; [exact Hle | reflexivity].
Qed.

(** X17. A larger [MaxRetry] changes nothing for a run that did not end on
    a retryable failure with the retries used up: when the run returned nil
    or an error that is not retryable, or was cut short by the context, a run
    with more retries allowed returns the same value after the same number
    of invocations. *)
Theorem more_retries_change_nothing
        (retryOptions retryOptions' : RetryOptions) (s : St) :
  MaxRetry retryOptions <= MaxRetry retryOptions' ->
  not_nil (fst (RetryIfNecessary s retryOptions)) = false
  \/ isRetryable (fst (RetryIfNecessary s retryOptions)) = false
  \/ cancellations (trace (snd (RetryIfNecessary s retryOptions))) = 1%nat ->
  fst (RetryIfNecessary s retryOptions') = fst (RetryIfNecessary s retryOptions)
  /\ invocations (trace (snd (RetryIfNecessary s retryOptions')))
     = invocations (trace (snd (RetryIfNecessary s retryOptions)))
  /\ op_state (snd (RetryIfNecessary s retryOptions'))
     = op_state (snd (RetryIfNecessary s retryOptions)).
Proof.
  intros Hmax.
  destruct (run_described retryOptions s) as (j & _ & Hround & _ & ->).
  cbn [fst snd trace op_state].
  destruct (run_trace_counts retryOptions s j) as (-> & _ & _ & -> & _).
  intros Hend.
  assert (Hround' : forall i, (i < j)%nat -> goes_round retryOptions' s i = true).
  { intros i Hi.
    destruct (goes_round_true retryOptions s i (Hround i Hi)) as [Hc Hd].
    unfold goes_round. rewrite Hd.
    apply loop_cond_true in Hc.
    replace (loop_cond retryOptions' (Z.of_nat i) (op_result i s)) with true;
      [reflexivity |].
    symmetry. apply loop_cond_true. repeat split; try tauto. lia. }
  assert (Hstop' : goes_round retryOptions' s j = false).
  { unfold goes_round, loop_cond.
    destruct Hend as [Hn | [Hr | Hc]].
    - rewrite Hn. reflexivity.
    - rewrite Hr, andb_false_r. reflexivity.
    - unfold stops, cut_short in Hc.
      destruct (loop_cond retryOptions (Z.of_nat j) (op_result j s));
        [| discriminate Hc].
      destruct (ctx_Done (Z.of_nat j)); [| discriminate Hc].
      apply andb_false_r. }
  rewrite (run_stops_at retryOptions' s j Hround' Hstop').
  cbn [fst snd trace op_state].
  destruct (run_trace_counts retryOptions' s j) as (-> & _).
  repeat split.
Qed.

End Retry.

Arguments trace {St} _.
Arguments op_state {St} _.

(** ** The definitions at the sample inputs *)

Local Abbreviation isRetryable_sample :=
  (isRetryable Sample.ErrorCodeUnauthorized Sample.ErrorCodeNameUnknown
               Sample.ErrorCodeManifestUnknown Sample.ECONNREFUSED).

Local Abbreviation RetryIfNecessary_sample operation ctx_Done :=
  (RetryIfNecessary Sample.ErrorCodeUnauthorized Sample.ErrorCodeNameUnknown
                    Sample.ErrorCodeManifestUnknown Sample.ECONNREFUSED
                    nat operation ctx_Done Sample.IntSize Sample.int_out_of_range).

Local Abbreviation delay_sample := (delay Sample.IntSize Sample.int_out_of_range).

Example run_reset_twice :
  RetryIfNecessary_sample Sample.reset_twice Sample.never_Done 0%nat (mkRetryOptions 5)
  = (nil_error,
     mkWorld nat 3%nat
       [EvOperation (net_OpError "read" "tcp" (unwrapper (syscall_Errno 104)));
        EvInfof 1000000000 1 5; EvAfter 1000000000;
        EvOperation (net_OpError "read" "tcp" (unwrapper (syscall_Errno 104)));
        EvInfof 2000000000 2 5; EvAfter 2000000000;
        EvOperation nil_error]).
Proof. vm_compute. reflexivity. Qed.

Example run_always_EOF_delays :
  map (fun ev => match ev with EvAfter d => d / time_Second | _ => 0 end)
      (filter is_EvAfter
         (trace (snd (RetryIfNecessary_sample Sample.always_EOF Sample.never_Done
                                              0%nat (mkRetryOptions 4)))))
  = [1; 2; 4; 8].
Proof. vm_compute. reflexivity. Qed.

Example isRetryable_samples :
  isRetryable_sample context_Canceled = false
  /\ isRetryable_sample (causer context_DeadlineExceeded) = false
  /\ isRetryable_sample (syscall_Errno Sample.ECONNREFUSED) = false
  /\ isRetryable_sample (syscall_Errno Sample.ECONNRESET) = true
  /\ isRetryable_sample (opaque_error "boom") = false
  /\ isRetryable_sample nil_error = false
  /\ isRetryable_sample (unwrapper (errcode_Error Sample.ErrorCodeDenied "denied")) = true.
Proof. vm_compute. repeat split. Qed.

(** ** Witnesses and counterexamples *)

Lemma always_failing_exhausts_retries_witness :
  0 <= MaxRetry (mkRetryOptions 3)
  /\ (forall i, not_nil (op_result nat Sample.always_EOF i 0%nat) = true
                /\ isRetryable_sample (op_result nat Sample.always_EOF i 0%nat) = true)
  /\ (forall a, Sample.never_Done a = false)
  /\ Z.of_nat (invocations (trace (snd (RetryIfNecessary_sample
                 Sample.always_EOF Sample.never_Done 0%nat (mkRetryOptions 3)))))
     = 3 + 1.
Proof.
  assert (H0 : 0 <= MaxRetry (mkRetryOptions 3)) by (simpl; lia).
  assert (H1 : forall i, not_nil (op_result nat Sample.always_EOF i 0%nat) = true
                /\ isRetryable_sample (op_result nat Sample.always_EOF i 0%nat) = true)
    by (intros i; split; reflexivity).
  assert (H2 : forall a, Sample.never_Done a = false) by reflexivity.
  split; [exact H0 |]. split; [exact H1 |]. split; [exact H2 |].
  exact (proj1 (always_failing_exhausts_retries
                  Sample.ErrorCodeUnauthorized Sample.ErrorCodeNameUnknown
                  Sample.ErrorCodeManifestUnknown Sample.ECONNREFUSED
                  nat Sample.always_EOF Sample.never_Done
                  Sample.IntSize Sample.int_out_of_range
                  0%nat (mkRetryOptions 3) H0 H1 H2)).
Defined.

(** C1 as stated does not hold: the operation always fails with a retryable
    error and [MaxRetry = 1], yet the context fires during the first wait
    and the operation is invoked once, not twice. *)
Lemma always_failing_cancelled_counterexample :
  0 <= MaxRetry (mkRetryOptions 1)
  /\ (forall i, not_nil (op_result nat Sample.always_EOF i 0%nat) = true
                /\ isRetryable_sample (op_result nat Sample.always_EOF i 0%nat) = true)
  /\ invocations (trace (snd (RetryIfNecessary_sample
                   Sample.always_EOF Sample.Done_in_first_wait 0%nat (mkRetryOptions 1))))
     = 1%nat
  /\ Z.of_nat (invocations (trace (snd (RetryIfNecessary_sample
                   Sample.always_EOF Sample.Done_in_first_wait 0%nat (mkRetryOptions 1)))))
     <> MaxRetry (mkRetryOptions 1) + 1.
Proof.
  split; [simpl; lia |].
  split; [intros i; split; reflexivity |].
  split; [vm_compute; reflexivity |].
  vm_compute. discriminate.
Qed.

Lemma succeeds_after_k_failures_witness :
  Z.of_nat 2 <= MaxRetry (mkRetryOptions 5)
  /\ fst (RetryIfNecessary_sample Sample.reset_twice Sample.never_Done
                                  0%nat (mkRetryOptions 5)) = nil_error
  /\ invocations (trace (snd (RetryIfNecessary_sample Sample.reset_twice Sample.never_Done
                                  0%nat (mkRetryOptions 5)))) = 3%nat.
Proof.
  split; [simpl; lia |].
  apply (succeeds_after_k_failures
           Sample.ErrorCodeUnauthorized Sample.ErrorCodeNameUnknown
           Sample.ErrorCodeManifestUnknown Sample.ECONNREFUSED
           nat Sample.reset_twice Sample.never_Done
           Sample.IntSize Sample.int_out_of_range
           0%nat (mkRetryOptions 5) 2%nat).
  - simpl. lia.
  - intros i Hi.
    destruct i as [| [| i]]; [split; reflexivity | split; reflexivity | lia].
  - reflexivity.
  - reflexivity.
Defined.

Lemma non_retryable_failure_returns_at_once_witness :
  fst (RetryIfNecessary_sample Sample.unauthorized Sample.never_Done
                               0%nat (mkRetryOptions 5))
  = causer (causer (errcode_Error 1002 "authentication required"))
  /\ trace (snd (RetryIfNecessary_sample Sample.unauthorized Sample.never_Done
                                         0%nat (mkRetryOptions 5)))
     = [EvOperation (causer (causer (errcode_Error 1002 "authentication required")))].
Proof.
  destruct (non_retryable_failure_returns_at_once
              Sample.ErrorCodeUnauthorized Sample.ErrorCodeNameUnknown
              Sample.ErrorCodeManifestUnknown Sample.ECONNREFUSED
              nat Sample.unauthorized Sample.never_Done
              Sample.IntSize Sample.int_out_of_range
              0%nat (mkRetryOptions 5)) as (Hret & Htrace & _).
  - reflexivity.
  - reflexivity.
  - split; [exact Hret | exact Htrace].
Defined.

Lemma cancelled_wait_returns_last_error_witness :
  Sample.Done_in_second_wait (Z.of_nat 1) = true
  /\ fst (RetryIfNecessary_sample Sample.always_EOF Sample.Done_in_second_wait
                                  0%nat (mkRetryOptions 5))
     = op_result nat Sample.always_EOF 1 0%nat
  /\ invocations (trace (snd (RetryIfNecessary_sample
                   Sample.always_EOF Sample.Done_in_second_wait 0%nat (mkRetryOptions 5))))
     = 2%nat
  /\ cancellations (trace (snd (RetryIfNecessary_sample
                     Sample.always_EOF Sample.Done_in_second_wait 0%nat (mkRetryOptions 5))))
     = 1%nat
  /\ fst (RetryIfNecessary_sample Sample.always_EOF Sample.Done_in_second_wait
                                  0%nat (mkRetryOptions 5)) <> context_Canceled.
Proof.
  assert (Hdone : Sample.Done_in_second_wait (Z.of_nat 1) = true) by reflexivity.
  destruct (cancelled_wait_returns_last_error
              Sample.ErrorCodeUnauthorized Sample.ErrorCodeNameUnknown
              Sample.ErrorCodeManifestUnknown Sample.ECONNREFUSED
              nat Sample.always_EOF Sample.Done_in_second_wait
              Sample.IntSize Sample.int_out_of_range
              (mkRetryOptions 5) 0%nat 1%nat)
    as (Hret & Hinv & _ & Hcan & _ & _ & Hnot & _).
  - intros i Hi. destruct i as [| i]; [| lia]. repeat split; reflexivity.
  - reflexivity.
  - reflexivity.
  - simpl. lia.
  - exact Hdone.
  - split; [exact Hdone |]. split; [exact Hret |]. split; [exact Hinv |].
    split; [exact Hcan | exact Hnot].
Defined.

Lemma isRetryable_coded_root_cause_witness :
  isRetryable_sample (causer (causer (errcode_Error 1002 "authentication required"))) = false
  /\ isRetryable_sample (causer (errcode_Error 1003 "denied")) = true.
Proof.
  split.
  - refine (proj1 (isRetryable_coded_root_cause
             Sample.ErrorCodeUnauthorized Sample.ErrorCodeNameUnknown
             Sample.ErrorCodeManifestUnknown Sample.ECONNREFUSED
             (causer (causer (errcode_Error 1002 "authentication required")))
             1002 "authentication required" _) _).
    + reflexivity.
    + left. reflexivity.
  - refine (proj2 (isRetryable_coded_root_cause
             Sample.ErrorCodeUnauthorized Sample.ErrorCodeNameUnknown
             Sample.ErrorCodeManifestUnknown Sample.ECONNREFUSED
             (causer (errcode_Error 1003 "denied")) 1003 "denied" _) _).
    + reflexivity.
    + repeat split; discriminate.
Defined.

Lemma isRetryable_aggregate_witness :
  isRetryable_sample
    (errcode_Errors [syscall_Errno 104; errcode_Error 1011 "manifest unknown";
                     syscall_Errno 104]) = false
  /\ isRetryable_sample
       (multierror_Error [syscall_Errno 104; errcode_Error 1011 "manifest unknown";
                          syscall_Errno 104]) = false.
Proof.
  apply (proj2 (proj2 (isRetryable_aggregate
           Sample.ErrorCodeUnauthorized Sample.ErrorCodeNameUnknown
           Sample.ErrorCodeManifestUnknown Sample.ECONNREFUSED
           [syscall_Errno 104; errcode_Error 1011 "manifest unknown"; syscall_Errno 104]))
         [syscall_Errno 104] (errcode_Error 1011 "manifest unknown") [syscall_Errno 104]).
  - reflexivity.
  - reflexivity.
Defined.

Lemma isRetryable_url_Error_witness :
  isRetryable_sample (url_Error "Get" "https://registry.example/v2/" io_EOF) = true
  /\ isRetryable_sample (url_Error "Get" "https://registry.example/v2/"
                                   (syscall_Errno 111))
     = isRetryable_sample (syscall_Errno 111).
Proof.
  split.
  - apply (proj1 (isRetryable_url_Error
             Sample.ErrorCodeUnauthorized Sample.ErrorCodeNameUnknown
             Sample.ErrorCodeManifestUnknown Sample.ECONNREFUSED
             "Get" "https://registry.example/v2/" io_EOF)).
    reflexivity.
  - apply (proj1 (proj2 (isRetryable_url_Error
             Sample.ErrorCodeUnauthorized Sample.ErrorCodeNameUnknown
             Sample.ErrorCodeManifestUnknown Sample.ECONNREFUSED
             "Get" "https://registry.example/v2/" (syscall_Errno 111)))).
    discriminate.
Defined.

Lemma delay_is_power_of_two_witness :
  delay_sample 3 = 2 ^ 3 * time_Second
  /\ (In (EvInfof 4000000000 3 4)
         (trace (snd (RetryIfNecessary_sample Sample.always_EOF Sample.never_Done
                                              0%nat (mkRetryOptions 4))))
      /\ 4000000000 = 2 ^ (3 - 1) * time_Second).
Proof.
  destruct (delay_is_power_of_two
              Sample.ErrorCodeUnauthorized Sample.ErrorCodeNameUnknown
              Sample.ErrorCodeManifestUnknown Sample.ECONNREFUSED
              nat Sample.always_EOF Sample.never_Done
              Sample.IntSize Sample.int_out_of_range
              0%nat (mkRetryOptions 4)) as [Hdelay Hrun].
  assert (Hin : In (EvInfof 4000000000 3 4)
                   (trace (snd (RetryIfNecessary_sample Sample.always_EOF Sample.never_Done
                                                        0%nat (mkRetryOptions 4)))))
    by (vm_compute; tauto).
  split; [| split].
  - apply Hdelay; [lia | unfold Sample.IntSize; lia].
  - exact Hin.
  - apply (Hrun 4000000000 3 4 Hin); [lia | unfold Sample.IntSize; lia].
Defined.

(** C8 as stated does not hold at attempt 34 with a 64-bit [int]:
    [2 ^ 34] seconds are more nanoseconds than [int64] holds, the product
    wraps round and the delay of the 35th notice of a run is negative. *)
Lemma delay_overflow_counterexample :
  delay_sample 34 = -1266874889709551616
  /\ delay_sample 34 <> 2 ^ 34 * time_Second
  /\ In (EvInfof (-1266874889709551616) 35 35)
        (trace (snd (RetryIfNecessary_sample Sample.always_EOF Sample.never_Done
                                             0%nat (mkRetryOptions 35)))).
Proof.
  split; [vm_compute; reflexivity |].
  split; [vm_compute; discriminate |].
  vm_compute. tauto.
Qed.

(** C9 as stated does not hold when the context fires during a wait: the
    notice of that wait has been logged, and the operation is not invoked
    again. *)
Lemma notices_cancelled_counterexample :
  notices (trace (snd (RetryIfNecessary_sample Sample.always_EOF Sample.Done_in_first_wait
                                               0%nat (mkRetryOptions 1)))) = 1%nat
  /\ invocations (trace (snd (RetryIfNecessary_sample Sample.always_EOF
                              Sample.Done_in_first_wait 0%nat (mkRetryOptions 1)))) = 1%nat
  /\ notices (trace (snd (RetryIfNecessary_sample Sample.always_EOF Sample.Done_in_first_wait
                                                  0%nat (mkRetryOptions 1))))
     <> (invocations (trace (snd (RetryIfNecessary_sample Sample.always_EOF
                                  Sample.Done_in_first_wait 0%nat (mkRetryOptions 1)))) - 1)%nat.
Proof.
  split; [vm_compute; reflexivity |].
  split; [vm_compute; reflexivity |].
  vm_compute. discriminate.
Qed.

Lemma negative_MaxRetry_like_zero_witness :
  MaxRetry (mkRetryOptions (-3)) < 0
  /\ RetryIfNecessary_sample Sample.always_EOF Sample.never_Done 0%nat (mkRetryOptions (-3))
     = RetryIfNecessary_sample Sample.always_EOF Sample.never_Done 0%nat (mkRetryOptions 0)
  /\ trace (snd (RetryIfNecessary_sample Sample.always_EOF Sample.never_Done
                                         0%nat (mkRetryOptions (-3))))
     = [EvOperation (url_Error "Get" "https://registry.example/v2/" io_EOF)].
Proof.
  assert (H : MaxRetry (mkRetryOptions (-3)) < 0) by (simpl; lia).
  destruct (negative_MaxRetry_like_zero
              Sample.ErrorCodeUnauthorized Sample.ErrorCodeNameUnknown
              Sample.ErrorCodeManifestUnknown Sample.ECONNREFUSED
              nat Sample.always_EOF Sample.never_Done
              Sample.IntSize Sample.int_out_of_range
              0%nat (mkRetryOptions (-3)) H) as (Heq & _ & Htrace).
  split; [exact H |]. split; [exact Heq | exact Htrace].
Defined.

(** ** Witnesses of the further properties *)

Lemma wrappers_are_transparent_witness :
  syscall_Errno 104 <> io_EOF
  /\ isRetryable_sample (wrap [WOpError "read" "tcp"; Wunwrapper; Wcauser] (syscall_Errno 104))
     = isRetryable_sample (syscall_Errno 104).
Proof.
  assert (H : syscall_Errno 104 <> io_EOF) by discriminate.
  split; [exact H |].
  exact (wrappers_are_transparent
           Sample.ErrorCodeUnauthorized Sample.ErrorCodeNameUnknown
           Sample.ErrorCodeManifestUnknown Sample.ECONNREFUSED
           [WOpError "read" "tcp"; Wunwrapper; Wcauser] (syscall_Errno 104) H).
Defined.

Lemma wrapped_unrecognised_not_retryable_witness :
  isRetryable_sample
    (wrap [WurlError "Get" "https://registry.example/v2/"; Wcauser; WOpError "dial" "tcp"]
          context_Canceled) = false.
Proof.
  apply (wrapped_unrecognised_not_retryable
           Sample.ErrorCodeUnauthorized Sample.ErrorCodeNameUnknown
           Sample.ErrorCodeManifestUnknown Sample.ECONNREFUSED
           [WurlError "Get" "https://registry.example/v2/"; Wcauser; WOpError "dial" "tcp"]
           context_Canceled).
  right. left. reflexivity.
Defined.

Lemma wrapped_Errno_retryable_witness :
  isRetryable_sample (wrap [WOpError "read" "tcp"; Wunwrapper] (syscall_Errno 104)) = true.
Proof.
  apply (proj2 (wrapped_Errno_retryable
                  Sample.ErrorCodeUnauthorized Sample.ErrorCodeNameUnknown
                  Sample.ErrorCodeManifestUnknown Sample.ECONNREFUSED
                  [WOpError "read" "tcp"; Wunwrapper] 104)).
  discriminate.
Defined.

Lemma wrapped_EOF_retryable_witness :
  isRetryable_sample
    (wrap ([Wcauser] ++ [WurlError "Get" "https://registry.example/v2/"]) io_EOF) = true.
Proof.
  apply (proj2 (wrapped_EOF_retryable
                  Sample.ErrorCodeUnauthorized Sample.ErrorCodeNameUnknown
                  Sample.ErrorCodeManifestUnknown Sample.ECONNREFUSED
                  ([Wcauser] ++ [WurlError "Get" "https://registry.example/v2/"]))).
  exists [Wcauser], "Get"%string, "https://registry.example/v2/"%string. reflexivity.
Defined.

Lemma aggregate_order_irrelevant_witness :
  isRetryable_sample (errcode_Errors [syscall_Errno 104; syscall_Errno 111])
  = isRetryable_sample (multierror_Error [syscall_Errno 111; syscall_Errno 104]).
Proof.
  apply (aggregate_order_irrelevant
           Sample.ErrorCodeUnauthorized Sample.ErrorCodeNameUnknown
           Sample.ErrorCodeManifestUnknown Sample.ECONNREFUSED
           [syscall_Errno 104; syscall_Errno 111]
           [syscall_Errno 111; syscall_Errno 104]).
  apply perm_swap.
Defined.

Lemma retryable_all_the_way_down_witness :
  isRetryable_sample (unwrapper (syscall_Errno 104)) = true
  /\ unwrapper (syscall_Errno 104) <> context_Canceled.
Proof.
  destruct (retryable_all_the_way_down
              Sample.ErrorCodeUnauthorized Sample.ErrorCodeNameUnknown
              Sample.ErrorCodeManifestUnknown Sample.ECONNREFUSED
              (errcode_Errors
                 [net_OpError "read" "tcp" (unwrapper (syscall_Errno 104));
                  errcode_Error 1003 "denied"])
              (unwrapper (syscall_Errno 104)))
    as (H1 & _ & H2 & _).
  - reflexivity.
  - simpl. tauto.
  - split; [exact H1 | exact H2].
Defined.

Lemma run_ends_at_first_stop_witness :
  fst (RetryIfNecessary_sample Sample.reset_twice Sample.never_Done 0%nat (mkRetryOptions 5))
  = op_result nat Sample.reset_twice 2 0%nat
  /\ invocations (trace (snd (RetryIfNecessary_sample Sample.reset_twice Sample.never_Done
                                                      0%nat (mkRetryOptions 5)))) = 3%nat.
Proof.
  destruct (run_ends_at_first_stop
              Sample.ErrorCodeUnauthorized Sample.ErrorCodeNameUnknown
              Sample.ErrorCodeManifestUnknown Sample.ECONNREFUSED
              nat Sample.reset_twice Sample.never_Done
              Sample.IntSize Sample.int_out_of_range
              (mkRetryOptions 5) 0%nat 2%nat) as (H1 & _ & _ & H2).
  - intros i Hi. destruct i as [| [| i]]; [reflexivity | reflexivity | lia].
  - reflexivity.
  - split; [exact H1 | exact H2].
Defined.

Lemma retries_follow_retryable_failures_witness :
  isRetryable_sample (op_result nat Sample.reset_twice 1 0%nat) = true
  /\ Z.of_nat 1 < 5.
Proof.
  destruct (retries_follow_retryable_failures
              Sample.ErrorCodeUnauthorized Sample.ErrorCodeNameUnknown
              Sample.ErrorCodeManifestUnknown Sample.ECONNREFUSED
              nat Sample.reset_twice Sample.never_Done
              Sample.IntSize Sample.int_out_of_range
              (mkRetryOptions 5) 0%nat 1%nat) as (_ & H1 & H2 & _).
  - vm_compute. apply le_n.
  - split; [exact H1 | exact H2].
Defined.

Lemma retryable_result_means_exhausted_or_cancelled_witness :
  cancellations (trace (snd (RetryIfNecessary_sample Sample.always_EOF Sample.never_Done
                                                     0%nat (mkRetryOptions 2)))) = 1%nat
  \/ Z.of_nat (invocations (trace (snd (RetryIfNecessary_sample
                 Sample.always_EOF Sample.never_Done 0%nat (mkRetryOptions 2)))))
     = Z.max 0 2 + 1.
Proof.
  apply (retryable_result_means_exhausted_or_cancelled
           Sample.ErrorCodeUnauthorized Sample.ErrorCodeNameUnknown
           Sample.ErrorCodeManifestUnknown Sample.ECONNREFUSED
           nat Sample.always_EOF Sample.never_Done
           Sample.IntSize Sample.int_out_of_range
           (mkRetryOptions 2) 0%nat).
  - reflexivity.
  - reflexivity.
Defined.

Lemma total_wait_witness :
  waited (trace (snd (RetryIfNecessary_sample Sample.always_EOF Sample.never_Done
                                              0%nat (mkRetryOptions 4))))
  = (2 ^ Z.of_nat (sleeps (trace (snd (RetryIfNecessary_sample
                      Sample.always_EOF Sample.never_Done 0%nat (mkRetryOptions 4))))) - 1)
    * time_Second.
Proof.
  apply (total_wait
           Sample.ErrorCodeUnauthorized Sample.ErrorCodeNameUnknown
           Sample.ErrorCodeManifestUnknown Sample.ECONNREFUSED
           nat Sample.always_EOF Sample.never_Done
           Sample.IntSize Sample.int_out_of_range
           (mkRetryOptions 4) 0%nat).
  - simpl. lia.
  - unfold Sample.IntSize. simpl. lia.
Defined.

Lemma first_success_returns_at_once_witness :
  fst (RetryIfNecessary_sample Sample.succeeds Sample.Done_in_first_wait
                               0%nat (mkRetryOptions 5)) = nil_error
  /\ trace (snd (RetryIfNecessary_sample Sample.succeeds Sample.Done_in_first_wait
                                         0%nat (mkRetryOptions 5)))
     = [EvOperation nil_error].
Proof.
  apply (first_success_returns_at_once
           Sample.ErrorCodeUnauthorized Sample.ErrorCodeNameUnknown
           Sample.ErrorCodeManifestUnknown Sample.ECONNREFUSED
           nat Sample.succeeds Sample.Done_in_first_wait
           Sample.IntSize Sample.int_out_of_range
           (mkRetryOptions 5) 0%nat).
  reflexivity.
Defined.

Lemma more_retries_change_nothing_witness :
  fst (RetryIfNecessary_sample Sample.reset_twice Sample.never_Done 0%nat (mkRetryOptions 9))
  = fst (RetryIfNecessary_sample Sample.reset_twice Sample.never_Done 0%nat (mkRetryOptions 3))
  /\ invocations (trace (snd (RetryIfNecessary_sample Sample.reset_twice Sample.never_Done
                                                      0%nat (mkRetryOptions 9))))
     = invocations (trace (snd (RetryIfNecessary_sample Sample.reset_twice Sample.never_Done
                                                        0%nat (mkRetryOptions 3)))).
Proof.
  destruct (more_retries_change_nothing
              Sample.ErrorCodeUnauthorized Sample.ErrorCodeNameUnknown
              Sample.ErrorCodeManifestUnknown Sample.ECONNREFUSED
              nat Sample.reset_twice Sample.never_Done
              Sample.IntSize Sample.int_out_of_range
              (mkRetryOptions 3) (mkRetryOptions 9) 0%nat) as (H1 & H2 & _).
  - simpl. lia.
  - left. reflexivity.
  - split; [exact H1 | exact H2].
Defined.
